(** * ioTube witness-service: the transfer recorder and the IoTeX validator driver

    A shallow embedding of

      - [witness-service/witness/recorder.go]  (package [witness]) and
      - [witness-service/relayer/transfervalidatoroniotex.go] (package [relayer])

    with the properties of the specification stated and proved over it.

    Go values are modelled as follows.  A [common.Address] (20 bytes) is the
    160-bit big-endian number of its bytes, so that the order on numbers is the
    byte order of the addresses; a [common.Hash] likewise; [uint64] and
    [*big.Int] are [Z]; [[]byte] is [list byte]; a Go [error] is a value of
    [error], a nil error is [None].  A Go function that may panic returns an
    [outcome]; state and the process log are threaded through a state monad. *)

From stdpp Require Import gmap strings list pretty.
From Equations Require Import Equations.
From Stdlib Require Import ZArith Lia Ascii Strings.Byte.

Local Open Scope Z_scope.

(** ** Values shared by both packages *)

Definition Address := N.
Definition Hash := N.

(** grpc [codes.Code] *)
Inductive codes :=
| OK | Canceled | Unknown | InvalidArgument | DeadlineExceeded | NotFound
| AlreadyExists | PermissionDenied | ResourceExhausted | FailedPrecondition
| Aborted | OutOfRange | Unimplemented | Internal | Unavailable | DataLoss
| Unauthenticated.

(** Go errors, by the call that builds them.  [errors_Wrap c e] stands for
    [errors.Wrap(c, e.Error())].  The two sentinels are package variables of
    [relayer] that the driver returns and wraps. *)
Inductive error :=
| errors_New (msg : string)
| errors_Errorf (format : string) (args : list fmtarg)
| errors_Wrap (cause : error) (detail : error)
| errors_Wrapf (cause : error) (format : string) (args : list fmtarg)
| status_Error (c : codes) (msg : string)
| extern_error (msg : string)
| errNoncritical
| errInsufficientWitnesses
with fmtarg :=
| FStr (s : string)
| FInt (z : Z)
| FErr (e : option error).

(** A line written by [log.Println] / [log.Printf]. *)
Record LogEntry := Log { log_format : string; log_args : list fmtarg }.

(** The result of a Go call: it returns, or it panics. *)
Inductive outcome (A : Type) :=
| Return (a : A)
| Panic (e : error).
Arguments Return {A} a.
Arguments Panic {A} e.

Definition is_panic {A} (o : outcome A) : bool :=
  match o with Panic _ => true | Return _ => false end.

(** State monad with panics: a panic stops the computation and keeps the state
    reached so far. *)
Definition M (W A : Type) : Type := W -> outcome A * W.

Definition ret {W A} (a : A) : M W A := fun w => (Return a, w).

Definition bind {W A B} (m : M W A) (k : A -> M W B) : M W B :=
  fun w =>
    match m w with
    | (Return a, w') => k a w'
    | (Panic e, w') => (Panic e, w')
    end.

Definition panic {W A} (e : error) : M W A := fun w => (Panic e, w).

Notation "'let*' x ':=' m 'in' k" := (bind m (fun x => k))
  (at level 10, x name, m at level 100, k at level 200).
Notation "'run' m 'in' k" := (bind m (fun _ => k))
  (at level 10, m at level 100, k at level 200).

Definition MaxInt64 : Z := 2 ^ 63 - 1.

(** [uint64(x)] of an [int64] or of a sum of [uint64]s: wrap-around. *)
Definition uint64 (z : Z) : Z := z mod 2 ^ 64.

(** [big.Int.String]: decimal text. *)
Definition big_String (z : Z) : string := pretty z.

(** [int64(x)] of a [uint64]: two's complement. *)
Definition int64 (z : Z) : Z := (z + 2 ^ 63) mod 2 ^ 64 - 2 ^ 63.

(** [big.Int.Int64]: the low 64 bits of the magnitude, as an [int64], negated
    for a negative number. *)
Definition big_Int64 (x : Z) : Z :=
  let v := int64 (Z.abs x mod 2 ^ 64) in
  if x <? 0 then int64 (- v) else v.

(** [big.Int.SetString(s, 10)]: an optional sign and at least one decimal
    digit, nothing else. *)
Definition digit_of (c : ascii) : option Z :=
  let n := Z.of_nat (nat_of_ascii c) in
  if (48 <=? n) && (n <=? 57) then Some (n - 48) else None.

Fixpoint scan_digits (s : string) (acc : Z) : option Z :=
  match s with
  | EmptyString => Some acc
  | String c s' =>
      match digit_of c with
      | Some d => scan_digits s' (acc * 10 + d)
      | None => None
      end
  end.

Definition big_SetString (s : string) : option Z :=
  match s with
  | EmptyString => None
  | String c s' =>
      if bool_decide (c = "-"%char) then
        match s' with
        | EmptyString => None
        | _ => Z.opp <$> scan_digits s' 0
        end
      else if bool_decide (c = "+"%char) then
        match s' with
        | EmptyString => None
        | _ => scan_digits s' 0
        end
      else scan_digits s 0
  end.

(** Run-time panics of Go itself. *)
Definition index_out_of_range : error := extern_error "runtime error: index out of range".
Definition slice_out_of_range : error := extern_error "runtime error: slice bounds out of range".
Definition nil_dereference : error :=
  extern_error "runtime error: invalid memory address or nil pointer dereference".

(** * Package witness: the recorder *)
Module witness.
Section Recorder.

(** [common.Address.Hex] and [common.Hash.Hex] of go-ethereum. *)
Variable Hex : Address -> string.
Variable HashHex : Hash -> string.

(** [TransferStatus] is a Go string type; a row may hold any text. *)
Definition TransferStatus := string.

(** Modelled from the spec: the three status constants are declared in a
    file of the package that is not at hand.  [TransferNew] is the column
    default, given as "new" in the table description; the other two are
    named by the log lines of the mutators that write them. *)
Definition TransferNew : TransferStatus := "new".
Definition SubmissionConfirmed : TransferStatus := "confirmed".
Definition TransferSettled : TransferStatus := "settled".

(** Modelled from the spec: [witness.Transfer] is declared in a file of the
    package that is not at hand; these are the fields the recorder reads,
    with the types of the data model ([amount] is never nil). *)
Record Transfer := {
  cashier : Address;
  token : Address;
  index : Z;
  sender : Address;
  recipient : Address;
  amount : Z;
  blockHeight : Z;
  txHash : Hash;
  id : Hash
}.

(** A row of the transfer table, by column ([creationTime] and
    [updateTime] are left out: the table keeps insertion order). *)
Record Row := {
  r_cashier : string;
  r_token : string;
  r_tidx : Z;
  r_sender : string;
  r_recipient : string;
  r_amount : string;
  r_status : TransferStatus;
  r_id : option string;
  r_blockHeight : Z;
  r_txHash : string
}.

#[global] Instance Row_eq_dec : EqDecision Row.
Proof. solve_decision. Defined.

(** PRIMARY KEY (cashier, token, tidx) *)
Definition Key : Type := string * string * Z.
Definition row_key (r : Row) : Key := (r_cashier r, r_token r, r_tidx r).
Definition has_key (k : Key) (r : Row) : bool := bool_decide (row_key r = k).

(** The database behind [db.SQLStore] is MySQL, modelled by what it does
    with the statements of the recorder on its one table.  What can go
    wrong in it: the statement is refused, the statement runs but its row
    count cannot be read, a query fails, or the cursor of a query breaks
    with an error after it delivered some rows: [delivered + 1] of them, so
    that the one row of a [SELECT MAX] is always read. *)
Inductive Fault :=
| ExecFault (e : error)
| RowsAffectedFault (e : error)
| QueryFault (e : error)
| CursorFault (delivered : nat) (e : error).

Record SQLStore := { table : list Row; fault : option Fault }.

(** [sql.Result], of which the recorder only calls [RowsAffected]. *)
Record Result := { RowsAffected : Z + error }.

Record World := { db : SQLStore; stderr : list LogEntry }.

Definition log_Printf (format : string) (args : list fmtarg) : M World unit :=
  fun w => (Return tt, {| db := db w; stderr := stderr w ++ [Log format args] |}).

Definition set_table (t : list Row) (w : World) : World :=
  {| db := {| table := t; fault := fault (db w) |}; stderr := stderr w |}.

Definition mk_result (w : World) (n : Z) : Result :=
  match fault (db w) with
  | Some (RowsAffectedFault e) => {| RowsAffected := inr e |}
  | _ => {| RowsAffected := inl n |}
  end.

(** [INSERT IGNORE INTO t (...) VALUES (...)]: a row whose primary key is
    taken is dropped with no error and counts for no affected row. *)
Definition Exec_insert_ignore (r : Row) : M World (Result + error) :=
  fun w =>
    match fault (db w) with
    | Some (ExecFault e) => (Return (inr e), w)
    | _ =>
        if existsb (has_key (row_key r)) (table (db w))
        then (Return (inl (mk_result w 0)), w)
        else (Return (inl (mk_result w 1)), set_table (table (db w) ++ [r]) w)
    end.

(** [UPDATE t SET ... WHERE ...]: every row the predicate selects is
    rewritten; the affected rows are those whose content changed. *)
Definition Exec_update (set : Row -> Row) (where_ : Row -> bool)
  : M World (Result + error) :=
  fun w =>
    match fault (db w) with
    | Some (ExecFault e) => (Return (inr e), w)
    | _ =>
        let t := table (db w) in
        let changed := filter (fun r => where_ r && negb (bool_decide (set r = r))) t in
        (Return (inl (mk_result w (Z.of_nat (length changed)))),
         set_table (map (fun r => if where_ r then set r else r) t) w)
    end.

(** [SELECT MAX(blockHeight) FROM t], scanned into a [sql.NullInt64]:
    NULL over no row. *)
Definition sql_max (l : list Z) : option Z :=
  match l with
  | [] => None
  | x :: l' => Some (fold_left Z.max l' x)
  end.

Definition QueryRow_max_blockHeight : M World (option Z + error) :=
  fun w =>
    match fault (db w) with
    | Some (QueryFault e) => (Return (inr e), w)
    | _ => (Return (inl (sql_max (map r_blockHeight (table (db w))))), w)
    end.

(** The row that [AddTransfer] binds to the INSERT; [status] and [id] take
    the column defaults. *)
Definition row_of (tx : Transfer) : Row :=
  {| r_cashier := Hex (cashier tx);
     r_token := Hex (token tx);
     r_tidx := index tx;
     r_sender := Hex (sender tx);
     r_recipient := Hex (recipient tx);
     r_amount := big_String (amount tx);
     r_status := TransferNew;
     r_id := None;
     r_blockHeight := blockHeight tx;
     r_txHash := HashHex (txHash tx) |}.

Definition key_of (tx : Transfer) : Key := (Hex (cashier tx), Hex (token tx), index tx).

Definition overflow : error :=
  errors_New "Hit the largest value designed for id, software upgrade needed".

Definition validateID (id : Z) : M World (option error) :=
  if bool_decide (id = MaxInt64 - 1) then
    run log_Printf "%v" [FErr (Some overflow)] in
    panic overflow
  else ret None.

Definition validateResult (res : Result) : M World (option error) :=
  match RowsAffected res with
  | inr err => ret (Some err)
  | inl affected =>
      if negb (bool_decide (affected = 1)) then
        ret (Some (errors_Errorf "The number of rows %d updated is not as expected"
                     [FInt affected]))
      else ret None
  end.

Definition AddTransfer (tx : Transfer) : M World (option error) :=
  let* err := validateID (index tx) in
  match err with
  | Some e => ret (Some e)
  | None =>
      if negb (bool_decide (Z.sgn (amount tx) = 1)) then
        ret (Some (errors_New "amount should be larger than 0"))
      else
        let* res := Exec_insert_ignore (row_of tx) in
        match res with
        | inr err => ret (Some err)
        | inl result =>
            match RowsAffected result with
            | inr err => ret (Some err)
            | inl affected =>
                run (if bool_decide (affected = 0) then
                       log_Printf "duplicate transfer (%s, %s, %d) ignored\n"
                         [FStr (Hex (cashier tx)); FStr (Hex (token tx)); FInt (index tx)]
                     else ret tt) in
                ret None
            end
        end
  end.

Definition set_status (s : TransferStatus) (r : Row) : Row :=
  {| r_cashier := r_cashier r; r_token := r_token r; r_tidx := r_tidx r;
     r_sender := r_sender r; r_recipient := r_recipient r; r_amount := r_amount r;
     r_status := s; r_id := r_id r;
     r_blockHeight := r_blockHeight r; r_txHash := r_txHash r |}.

Definition set_status_id (s : TransferStatus) (i : string) (r : Row) : Row :=
  {| r_cashier := r_cashier r; r_token := r_token r; r_tidx := r_tidx r;
     r_sender := r_sender r; r_recipient := r_recipient r; r_amount := r_amount r;
     r_status := s; r_id := Some i;
     r_blockHeight := r_blockHeight r; r_txHash := r_txHash r |}.

Definition where_key_status (tx : Transfer) (s : TransferStatus) (r : Row) : bool :=
  has_key (key_of tx) r && bool_decide (r_status r = s).

Definition SettleTransfer (tx : Transfer) : M World (option error) :=
  run log_Printf "mark transfer %s as settled" [FStr (HashHex (id tx))] in
  let* res := Exec_update (set_status TransferSettled)
                (where_key_status tx SubmissionConfirmed) in
  match res with
  | inr err => ret (Some err)
  | inl result => validateResult result
  end.

Definition ConfirmTransfer (tx : Transfer) : M World (option error) :=
  run log_Printf "mark transfer %s as confirmed" [FStr (HashHex (id tx))] in
  let* res := Exec_update (set_status_id SubmissionConfirmed (HashHex (id tx)))
                (where_key_status tx TransferNew) in
  match res with
  | inr err => ret (Some err)
  | inl result => validateResult result
  end.

Definition TipHeight : M World (Z * option error) :=
  let* scanned := QueryRow_max_blockHeight in
  match scanned with
  | inr _ => ret (0, None)
  | inl height =>
      match height with
      | Some h => ret (uint64 h, None)
      | None => ret (0, None)
      end
  end.

(** A sequence of [AddTransfer] calls, with the result of each. *)
Fixpoint AddTransfers (txs : list Transfer) (w : World)
  : list (outcome (option error)) * World :=
  match txs with
  | [] => ([], w)
  | tx :: rest =>
      let '(o, w1) := AddTransfer tx w in
      let '(os, w2) := AddTransfers rest w1 in
      (o :: os, w2)
  end.

(** Vocabulary of the properties below. *)

(** A transfer that passes both guards of [AddTransfer]. *)
Definition admissible (tx : Transfer) : Prop :=
  index tx <> MaxInt64 - 1 /\ 0 < amount tx.

Definition duplicate_notice (tx : Transfer) : LogEntry :=
  Log "duplicate transfer (%s, %s, %d) ignored\n"
    [FStr (Hex (cashier tx)); FStr (Hex (token tx)); FInt (index tx)].

Definition add_log (e : LogEntry) (w : World) : World :=
  {| db := db w; stderr := stderr w ++ [e] |}.

(** The two ways in which [AddTransfer] fails on a violated invariant: the
    error for the amount, returned, and the overflow of the ID, a panic. *)
Definition amount_error : error := errors_New "amount should be larger than 0".

Definition InvariantViolation (o : outcome (option error)) : Prop :=
  o = Return (Some amount_error) \/ o = Panic overflow.

(** The row that [ConfirmTransfer] writes over a row. *)
Definition confirmed_row (tx : Transfer) (r : Row) : Row :=
  set_status_id SubmissionConfirmed (HashHex (id tx)) r.

Definition stale_rows (affected : Z) : error :=
  errors_Errorf "The number of rows %d updated is not as expected" [FInt affected].

End Recorder.

(** ** The queues: [transfers], [TransfersToSubmit], [TransfersToSettle] *)
Section Queries.

(** [common.HexToAddress] and [common.HexToHash] of go-ethereum (they never
    fail), and the token pairs of the recorder. *)
Variable HexToAddress : string -> Address.
Variable HexToHash : string -> Hash.
Variable tokenPairs : gmap Address Address.

(** What [transfers] builds for a row: the [Transfer] it fills (its
    [blockHeight] and [txHash] are not selected and stay zero), with the two
    fields of the struct that only [transfers] writes. *)
Record Fetched := { f_transfer : Transfer; f_status : TransferStatus; f_coToken : Address }.

(** [SELECT ... FROM t WHERE status=? ORDER BY creationTime], as the rows
    that [rows.Next] and [rows.Scan] go through: the table is kept in the
    order of insertion, and no statement of the recorder changes a
    [creationTime].  When the cursor breaks, [rows.Next] returns false
    after the rows delivered, as it does at the end of the rows. *)
Definition Query_by_status (status : TransferStatus) : M World (list Row + error) :=
  fun w =>
    match fault (db w) with
    | Some (QueryFault e) => (Return (inr e), w)
    | Some (CursorFault delivered e) =>
        (Return (inl (take (S delivered)
                        (filter (fun r => r_status r = status) (table (db w))))), w)
    | _ => (Return (inl (filter (fun r => r_status r = status) (table (db w)))), w)
    end.

(** [rows.Scan] of the [tidx] column into a [uint64]. *)
Definition Scan_uint64 (z : Z) : Z + error :=
  if (z <? 0) || (2 ^ 64 <=? z) then
    inr (extern_error "sql: Scan error on column index 2: converting to a uint64")
  else inl z.

(** One turn of the loop of [transfers]: the transfer to append, or nothing
    for a token that is not in the whitelist ([continue]), or the error that
    ends the call. *)
Definition scan_row (r : Row) : option Fetched + error :=
  match Scan_uint64 (r_tidx r) with
  | inr err => inr err
  | inl idx =>
      match big_SetString (r_amount r) with
      | None => inr (errors_Errorf "invalid amount %s" [FStr (r_amount r)])
      | Some a =>
          if negb (bool_decide (Z.sgn a = 1)) then
            inr (errors_Errorf "invalid amount %s" [FStr (r_amount r)])
          else
            match tokenPairs !! HexToAddress (r_token r) with
            | Some toToken =>
                inl (Some {| f_transfer :=
                               {| cashier := HexToAddress (r_cashier r);
                                  token := HexToAddress (r_token r);
                                  index := idx;
                                  sender := HexToAddress (r_sender r);
                                  recipient := HexToAddress (r_recipient r);
                                  amount := a;
                                  blockHeight := 0;
                                  txHash := 0%N;
                                  id := match r_id r with
                                        | Some i => HexToHash i
                                        | None => 0%N
                                        end |};
                             f_status := r_status r;
                             f_coToken := toToken |})
            | None => inl None
            end
      end
  end.

(** [for rows.Next() { ... rec = append(rec, tx) }] *)
Fixpoint scan_rows (rows : list Row) (rec : list Fetched) : list Fetched + error :=
  match rows with
  | [] => inl rec
  | r :: rest =>
      match scan_row r with
      | inr err => inr err
      | inl (Some tx) => scan_rows rest (rec ++ [tx])
      | inl None => scan_rows rest rec
      end
  end.

(** [transfers]: after the loop [rows.Err] is not consulted, so the rows
    read before a broken cursor are returned with a nil error. *)
Definition transfers (status : TransferStatus) : M World (list Fetched + error) :=
  let* queried := Query_by_status status in
  match queried with
  | inr err => ret (inr err)
  | inl rows => ret (scan_rows rows [])
  end.

Definition TransfersToSettle : M World (list Fetched + error) :=
  transfers SubmissionConfirmed.

Definition TransfersToSubmit : M World (list Fetched + error) :=
  transfers TransferNew.

(** Vocabulary of the properties below: a row that [transfers] can read, and
    the transfer it reads from the row that [AddTransfer] writes. *)
Definition readable (r : Row) : Prop :=
  0 <= r_tidx r < 2 ^ 64
  /\ exists a, big_SetString (r_amount r) = Some a /\ 0 < a.

Definition fetched_of (tx : Transfer) (toToken : Address) : Fetched :=
  {| f_transfer := {| cashier := cashier tx; token := token tx; index := index tx;
                      sender := sender tx; recipient := recipient tx;
                      amount := amount tx; blockHeight := 0; txHash := 0%N;
                      id := 0%N |};
     f_status := TransferNew;
     f_coToken := toToken |}.

End Queries.

(** The conditional update shared by [ConfirmTransfer] and [SettleTransfer]:
    the UPDATE under the key of the transfer and a status, followed by
    [validateResult]; and the table it leaves when it finds the row. *)
Section Updates.

Variable Hex : Address -> string.

Definition update_from (tx : Transfer) (from : TransferStatus) (set : Row -> Row)
  : M World (option error) :=
  let* res := Exec_update set (where_key_status Hex tx from) in
  match res with
  | inr err => ret (Some err)
  | inl result => validateResult result
  end.

Definition rewrite_key (tx : Transfer) (set : Row -> Row) (t : list Row) : list Row :=
  map (fun r => if bool_decide (row_key r = key_of Hex tx) then set r else r) t.

(** The columns that no UPDATE of the recorder writes. *)
Definition same_payload (r r' : Row) : Prop :=
  row_key r' = row_key r
  /\ r_sender r' = r_sender r /\ r_recipient r' = r_recipient r
  /\ r_amount r' = r_amount r /\ r_blockHeight r' = r_blockHeight r
  /\ r_txHash r' = r_txHash r.

End Updates.

(** The row that [SettleTransfer] writes over a row, and the primary key of
    the table as an invariant. *)
Definition settled_row (r : Row) : Row := set_status TransferSettled r.

Definition keys_unique (w : World) : Prop := NoDup (map row_key (table (db w))).

End witness.

(** * Package relayer: the validator driver on IoTeX *)
Module relayer.
Section Driver.

(** [common.Address.Hex] of go-ethereum. *)
Variable Hex : Address -> string.

(** Modelled from the spec: the five answers of [Check], constants of the
    package declared in a file that is not at hand. *)
Inductive StatusOnChainType :=
| StatusOnChainUnknown
| StatusOnChainNotConfirmed
| StatusOnChainNeedSpeedUp
| StatusOnChainSettled
| StatusOnChainRejected.

(** Modelled from the spec: [relayer.Transfer] is declared in a file of the
    package that is not at hand; these are the fields the driver reads, and
    [txHash], the hash of the last submission on the destination chain, which
    the recorder writes with [nonce] when a transfer is marked submitted and
    which the driver at hand never reads. *)
Record Transfer := {
  cashier : Address;
  token : Address;
  index : Z;
  sender : Address;
  recipient : Address;
  amount : Z;
  id : Hash;
  nonce : Z;
  txHash : Hash
}.

(** Modelled from the spec: a received witness signature, declared in a file
    of the package that is not at hand. *)
Record Witness := { addr : Address; signature : list byte }.

(** A value decoded from contract data, as the type assertions of the
    driver see it. *)
Inductive abi_value :=
| abi_uint (z : Z)
| abi_uint8 (z : Z)
| abi_hash (h : Hash)
| abi_address (a : Address)
| abi_active_items (Count : Z) (Items : list Address)
| abi_other (type_name : string).

Definition TypeOf (v : abi_value) : string :=
  match v with
  | abi_uint _ => "*big.Int"
  | abi_uint8 _ => "uint8"
  | abi_hash _ => "[32]uint8"
  | abi_address _ => "common.Address"
  | abi_active_items _ _ => "struct"
  | abi_other n => n
  end.

(** [address.Address] of iotex-address. *)
Record IoAddress := { io_Bytes : Address; io_String : string }.

Record AccountMeta := { Balance : string; Nonce : Z }.
Record GetAccountResponse := { accountMeta : option AccountMeta }.
Record GetReceiptByActionRequest := { ActionHash : string }.
Record GetReceiptByActionResponse := { receiptStatus : Z }.

(** A call of [validatorContract.Execute(...).SetGasPrice(..).SetGasLimit(..).SetNonce(..).Call]. *)
Record Submission := {
  s_method : string;
  s_cashier : Address;
  s_token : Address;
  s_index : Z;
  s_sender : Address;
  s_recipient : Address;
  s_amount : Z;
  s_signatures : list byte;
  s_gasPrice : Z;
  s_gasLimit : Z;
  s_nonce : Z
}.

(** The destination chain and the libraries in front of it, as the driver
    sees them during one call. *)
Record Env := {
  witnessList_Read : string -> list abi_value -> list byte + error;
  witnessList_Unpack : string -> list byte -> list abi_value + error;
  validator_Read : string -> list abi_value -> list byte + error;
  validator_Unpack : string -> list byte -> list abi_value + error;
  validator_Execute : Submission -> Hash + error;
  GetReceiptByAction :
    GetReceiptByActionRequest -> option GetReceiptByActionResponse * option error;
  GetAccount : string -> option GetAccountResponse + error;
  address_FromBytes : Address -> IoAddress + error
}.

Variable env : Env.

Record transferValidatorOnIoTeX := {
  gasLimit : Z;
  gasPrice : Z;
  relayerAddr : IoAddress;
  validatorContractAddr : IoAddress;
  witnesses : gmap string bool
}.

(** The driver, the process log, the alerts raised and the submissions
    handed to the chain. *)
Record World := {
  tv : transferValidatorOnIoTeX;
  stderr : list LogEntry;
  alerts : list string;
  sent : list Submission
}.

Definition log_Printf (format : string) (args : list fmtarg) : M World unit :=
  fun w => (Return tt,
            {| tv := tv w; stderr := stderr w ++ [Log format args];
               alerts := alerts w; sent := sent w |}).

Definition Alert (msg : string) : M World unit :=
  fun w => (Return tt,
            {| tv := tv w; stderr := stderr w; alerts := alerts w ++ [msg];
               sent := sent w |}).

Definition get_tv : M World transferValidatorOnIoTeX :=
  fun w => (Return (tv w), w).

Definition set_witnesses (m : gmap string bool) : M World unit :=
  fun w => (Return tt,
            {| tv := {| gasLimit := gasLimit (tv w); gasPrice := gasPrice (tv w);
                        relayerAddr := relayerAddr (tv w);
                        validatorContractAddr := validatorContractAddr (tv w);
                        witnesses := m |};
               stderr := stderr w; alerts := alerts w; sent := sent w |}).

Definition Execute (s : Submission) : M World (Hash + error) :=
  fun w => (Return (validator_Execute env s),
            {| tv := tv w; stderr := stderr w; alerts := alerts w;
               sent := sent w ++ [s] |}).

Definition lift {A} (o : outcome A) : M World A := fun w => (o, w).

Definition limit : Z := 10.

(** [ai.Items[:int(ai.Count.Int64())]] *)
Definition slice_to (items : list Address) (n : Z) : outcome (list Address) :=
  if (n <? 0) || (Z.of_nat (length items) <? n) then Panic slice_out_of_range
  else Return (take (Z.to_nat n) items).

(** One turn of the paging loop of [refresh]: the items to append. *)
Definition getActiveItems (offset : Z) : outcome (list Address + error) :=
  match witnessList_Read env "getActiveItems" [abi_uint offset; abi_uint8 limit] with
  | inr err => Return (inr err)
  | inl data =>
      match witnessList_Unpack env "getActiveItems" data with
      | inr err => Return (inr err)
      | inl [] => Panic index_out_of_range
      | inl (abi_active_items count items :: _) =>
          match slice_to items (big_Int64 count) with
          | Return page => Return (inl page)
          | Panic e => Panic e
          end
      | inl (v :: _) => Return (inr (errors_Errorf "invalid type %s" [FStr (TypeOf v)]))
      end
  end.

(** [for offset.Cmp(count) < 0 { ...; offset.Add(offset, limit) }] *)
Equations? pages (count offset : Z) (acc : list Address)
  : outcome (list Address + error) by wf (Z.to_nat (count - offset)) lt :=
  pages count offset acc with decide (offset < count) => {
    | right _ := Return (inl acc);
    | left _ with getActiveItems offset => {
        | Panic e := Panic e;
        | Return (inr err) := Return (inr err);
        | Return (inl page) := pages count (offset + limit) (acc ++ page) } }.
Proof. unfold limit. lia. Qed.

Definition tab : string := String (ascii_of_nat 9) EmptyString.

(** [for _, w := range witnesses { ... activeWitnesses[w.Hex()] = true }] *)
Fixpoint activate (ws : list Address) (activeWitnesses : gmap string bool)
  : M World (gmap string bool + error) :=
  match ws with
  | [] => ret (inl activeWitnesses)
  | w :: rest =>
      match address_FromBytes env w with
      | inr err => ret (inr err)
      | inl a =>
          run log_Printf "%v" [FStr (tab +:+ io_String a)] in
          activate rest (<[Hex w := true]> activeWitnesses)
      end
  end.

Definition refresh : M World (option error) :=
  match witnessList_Read env "count" [] with
  | inr err => ret (Some err)
  | inl countData =>
      match witnessList_Unpack env "count" countData with
      | inr err => ret (Some err)
      | inl [] => panic index_out_of_range
      | inl (abi_uint count :: _) =>
          let* fetched := lift (pages count 0 []) in
          match fetched with
          | inr err => ret (Some err)
          | inl witnesses_ =>
              run log_Printf "refresh Witnesses on IoTeX" [] in
              let* r := activate witnesses_ ∅ in
              match r with
              | inr err => ret (Some err)
              | inl activeWitnesses =>
                  run set_witnesses activeWitnesses in
                  ret None
              end
          end
      | inl (v :: _) => ret (Some (errors_Errorf "invalid type %s" [FStr (TypeOf v)]))
      end
  end.

Definition isActiveWitness (this : transferValidatorOnIoTeX) (witness : Address) : bool :=
  match witnesses this !! Hex witness with
  | Some val => val
  | None => false
  end.

(** [status.Code] of grpc. *)
Definition status_Code (err : option error) : codes :=
  match err with
  | None => OK
  | Some (status_Error c _) => c
  | Some _ => Unknown
  end.

Definition Check (transfer : Transfer) : M World (StatusOnChainType * option error) :=
  match validator_Read env "settles" [abi_hash (id transfer)] with
  | inr err => ret (StatusOnChainUnknown, Some err)
  | inl settleHeightData =>
      match validator_Unpack env "settles" settleHeightData with
      | inr err => ret (StatusOnChainUnknown, Some err)
      | inl [] => panic index_out_of_range
      | inl (abi_uint settleHeight :: _) =>
          if 0 <? settleHeight then ret (StatusOnChainSettled, None)
          else
            let '(response, err) := GetReceiptByAction env {| ActionHash := "" |} in
            match status_Code err with
            | NotFound => ret (StatusOnChainNeedSpeedUp, None)
            | OK =>
                match response with
                | Some _ => ret (StatusOnChainRejected, None)
                | None => ret (StatusOnChainNotConfirmed, None)
                end
            | _ => ret (StatusOnChainUnknown, err)
            end
      | inl (v :: _) =>
          ret (StatusOnChainUnknown,
               Some (errors_Errorf "invalid type %s" [FStr (TypeOf v)]))
      end
  end.

Definition relayerAccountMeta (this : transferValidatorOnIoTeX)
  : outcome (option AccountMeta + error) :=
  match GetAccount env (io_String (relayerAddr this)) with
  | inr err => Return (inr err)
  | inl None => Panic nil_dereference
  | inl (Some response) => Return (inl (accountMeta response))
  end.

(** The values [submit] returns with an error. *)
Definition failed (e : error) : Hash * Z * option Z * option error :=
  (0%N, 0, None, Some e).

(** [for _, witness := range witnesses { ... }] of [submit] *)
Fixpoint collect (this : transferValidatorOnIoTeX) (ws : list Witness)
    (signatures : list byte) (numOfValidSignatures : Z)
  : M World (list byte * Z + error) :=
  match ws with
  | [] => ret (inl (signatures, numOfValidSignatures))
  | witness :: rest =>
      if negb (isActiveWitness this (addr witness)) then
        match address_FromBytes env (addr witness) with
        | inr err => ret (inr err)
        | inl a =>
            run log_Printf "witness %s is inactive\n" [FStr (io_String a)] in
            collect this rest signatures numOfValidSignatures
        end
      else
        collect this rest (signatures ++ signature witness) (numOfValidSignatures + 1)
  end.

(** The nonce of the contract call: the recorded one on a speed-up, the
    account's next one otherwise. *)
Definition nonce_for (resubmit : bool) (transfer : Transfer) (account : AccountMeta) : Z :=
  if resubmit then nonce transfer else uint64 (Nonce account + 1).

Definition submission_of (this : transferValidatorOnIoTeX) (transfer : Transfer)
    (signatures : list byte) (nonce_ : Z) : Submission :=
  {| s_method := "submit";
     s_cashier := cashier transfer;
     s_token := token transfer;
     s_index := index transfer;
     s_sender := sender transfer;
     s_recipient := recipient transfer;
     s_amount := amount transfer;
     s_signatures := signatures;
     s_gasPrice := gasPrice this;
     s_gasLimit := gasLimit this;
     s_nonce := nonce_ |}.

(** The second half of [submit], from the account read to the contract
    call. *)
Definition send (this : transferValidatorOnIoTeX) (transfer : Transfer)
    (signatures : list byte) (resubmit : bool)
  : M World (Hash * Z * option Z * option error) :=
  let* meta := lift (relayerAccountMeta this) in
  match meta with
  | inr e =>
      ret (failed (errors_Wrapf errNoncritical "failed to get account of %s, %v"
                     [FStr (io_String (relayerAddr this)); FErr (Some e)]))
  | inl None => panic nil_dereference
  | inl (Some account) =>
      match big_SetString (Balance account) with
      | None =>
          ret (failed (errors_Wrapf errNoncritical
                         "failed to convert balance %s of account %s, %v"
                         [FStr (Balance account);
                          FStr (io_String (relayerAddr this)); FErr None]))
      | Some balance =>
          run (if balance <? gasPrice this * gasLimit this then
                 Alert ("IOTX native balance has dropped to "
                        +:+ big_String balance
                        +:+ ", please refill account for gas "
                        +:+ io_String (relayerAddr this))
               else ret tt) in
          let nonce_ := nonce_for resubmit transfer account in
          let* res := Execute (submission_of this transfer signatures nonce_) in
          match res with
          | inr e => ret (0%N, 0, None, Some e)
          | inl actionHash => ret (actionHash, nonce_, Some (gasPrice this), None)
          end
      end
  end.

Definition submit (transfer : Transfer) (witnesses_ : list Witness) (resubmit : bool)
  : M World (Hash * Z * option Z * option error) :=
  let* err := refresh in
  match err with
  | Some e => ret (failed (errors_Wrap errNoncritical e))
  | None =>
      let* this := get_tv in
      let* collected := collect this witnesses_ [] 0 in
      match collected with
      | inr e => ret (failed (errors_Wrap errNoncritical e))
      | inl (signatures, numOfValidSignatures) =>
          if numOfValidSignatures * 3 <=? Z.of_nat (size (witnesses this)) * 2 then
            ret (failed errInsufficientWitnesses)
          else send this transfer signatures resubmit
      end
  end.

Definition Submit (transfer : Transfer) (witnesses_ : list Witness) :=
  submit transfer witnesses_ false.


(** The witnesses of a list that the driver holds active, in the order of
    the list, and the payload they make. *)
Definition active_of (this : transferValidatorOnIoTeX) (ws : list Witness) : list Witness :=
  filter (fun w => isActiveWitness this (addr w) = true) ws.

Definition payload (ws : list Witness) : list byte :=
  concat (map signature ws).

(** The cache that [refresh] builds from the addresses it fetched. *)
Definition cache_of (fetched : list Address) : gmap string bool :=
  foldl (fun m a => <[Hex a := true]> m) ∅ fetched.

(** The relayer account can be read and its balance is a decimal number. *)
Definition account_ready (this : transferValidatorOnIoTeX) (account : AccountMeta) : Prop :=
  exists response balance,
    GetAccount env (io_String (relayerAddr this)) = inl (Some response)
    /\ accountMeta response = Some account
    /\ big_SetString (Balance account) = Some balance.

(** What [submit] returns once the contract call is made. *)
Definition sent_result (this : transferValidatorOnIoTeX) (s : Submission)
  : Hash * Z * option Z * option error :=
  match validator_Execute env s with
  | inl actionHash => (actionHash, s_nonce s, Some (gasPrice this), None)
  | inr e => (0%N, 0, None, Some e)
  end.

(** go-ethereum's [abi.Unpack] returns one value for each output of the
    method, of the Go type of that output: a [*big.Int], a
    [common.Address], a [[]common.Address], and for an output that is a
    tuple a struct whose fields carry [json] tags.  None of them has the
    untagged struct type that the assertion of [refresh] asks for. *)
Definition Unpack_of_go_ethereum : Prop :=
  forall method data count items rest,
    witnessList_Unpack env method data <> inl (abi_active_items count items :: rest).

(** iotex-address converts any twenty bytes, the bytes of a
    [common.Address]. *)
Definition FromBytes_total : Prop :=
  forall a, exists io, address_FromBytes env a = inl io.

(** An error that wraps [errNoncritical]: the caller may try again. *)
Definition noncritical (e : error) : Prop :=
  match e with
  | errors_Wrap errNoncritical _ => True
  | errors_Wrapf errNoncritical _ _ => True
  | _ => False
  end.

(** The text of the alert of [submit]. *)
Definition low_balance_alert (this : transferValidatorOnIoTeX) (balance : Z) : string :=
  "IOTX native balance has dropped to " +:+ big_String balance
  +:+ ", please refill account for gas " +:+ io_String (relayerAddr this).

(** ** Construction and address of the driver *)

(** [abi.JSON] of the two contract descriptions, constants of the package
    [contract]: the error of parsing each, if any. *)
Variable TransferValidatorABI_JSON : option error.
Variable AddressListABI_JSON : option error.



End Driver.
End relayer.

(** * Concrete data for the examples *)

Definition demo_Hex (a : N) : string := "0x" +:+ pretty a.

Definition empty_world : witness.World :=
  {| witness.db := {| witness.table := []; witness.fault := None |};
     witness.stderr := [] |}.

Definition demo_transfer (idx amt height : Z) : witness.Transfer :=
  {| witness.cashier := 1%N; witness.token := 2%N; witness.index := idx;
     witness.sender := 3%N; witness.recipient := 4%N; witness.amount := amt;
     witness.blockHeight := height; witness.txHash := 5%N; witness.id := 6%N |}.

Definition demo_row (status : string) (height : Z) : witness.Row :=
  {| witness.r_cashier := demo_Hex 1; witness.r_token := demo_Hex 2;
     witness.r_tidx := 9; witness.r_sender := demo_Hex 3;
     witness.r_recipient := demo_Hex 4; witness.r_amount := "100";
     witness.r_status := status; witness.r_id := None;
     witness.r_blockHeight := height; witness.r_txHash := demo_Hex 5 |}.

Definition world_of (rows : list witness.Row) : witness.World :=
  {| witness.db := {| witness.table := rows; witness.fault := None |};
     witness.stderr := [] |}.

Definition demo_io (a : Address) : relayer.IoAddress :=
  {| relayer.io_Bytes := a; relayer.io_String := "io" +:+ pretty a |}.

(** A small destination chain: the active witnesses (served in pages of ten),
    the answer to the account read, the settle height of every transfer and
    the receipts by action hash. *)
Record Chain := {
  c_active : list Address;
  c_account : option relayer.GetAccountResponse + error;
  c_settle : Z;
  c_receipts : string -> option relayer.GetReceiptByActionResponse * option error
}.

Definition page_of (c : Chain) (raw : list byte) : list Address :=
  take 10 (drop (10 * length raw) (c_active c)).

(** The chain behind the released libraries.  [getActiveItems] has two
    outputs, and go-ethereum's [abi.Unpack] returns one value for each: the
    count as a [*big.Int] and the items as a [[]common.Address]. *)
Definition chain_env (c : Chain) : relayer.Env :=
  {| relayer.witnessList_Read := fun method args =>
       match args with
       | relayer.abi_uint offset :: _ => inl (replicate (Z.to_nat (offset / 10)) x00)
       | _ => inl []
       end;
     relayer.witnessList_Unpack := fun method raw =>
       if bool_decide (method = "count")
       then inl [relayer.abi_uint (Z.of_nat (length (c_active c)))]
       else inl [relayer.abi_uint (Z.of_nat (length (page_of c raw)));
                 relayer.abi_other "[]common.Address"];
     relayer.validator_Read := fun method args => inl [];
     relayer.validator_Unpack := fun method raw => inl [relayer.abi_uint (c_settle c)];
     relayer.validator_Execute := fun s => inl (N.of_nat (length (relayer.s_signatures s)));
     relayer.GetReceiptByAction := fun req => c_receipts c (relayer.ActionHash req);
     relayer.GetAccount := fun a => c_account c;
     relayer.address_FromBytes := fun a => inl (demo_io a) |}.

Definition demo_account : option relayer.GetAccountResponse + error :=
  inl (Some {| relayer.accountMeta :=
                 Some {| relayer.Balance := "5000000000000000000"; relayer.Nonce := 41 |} |}).

Definition no_receipts : string -> option relayer.GetReceiptByActionResponse * option error :=
  fun _ => (None, Some (status_Error NotFound "action not found")).

Definition demo_chain : Chain :=
  {| c_active := [1; 2; 3]%N; c_account := demo_account; c_settle := 0;
     c_receipts := no_receipts |}.

(** A chain whose witness list is empty. *)
Definition empty_chain : Chain :=
  {| c_active := []; c_account := demo_account; c_settle := 0;
     c_receipts := no_receipts |}.

Definition demo_tv : relayer.transferValidatorOnIoTeX :=
  {| relayer.gasLimit := 2000000; relayer.gasPrice := 1000000000000;
     relayer.relayerAddr := demo_io 100%N; relayer.validatorContractAddr := demo_io 200%N;
     relayer.witnesses := ∅ |}.

Definition demo_driver : relayer.World :=
  {| relayer.tv := demo_tv; relayer.stderr := []; relayer.alerts := [];
     relayer.sent := [] |}.

Definition demo_relay (nonce_ : Z) (tx : Hash) : relayer.Transfer :=
  {| relayer.cashier := 1%N; relayer.token := 2%N; relayer.index := 9;
     relayer.sender := 3%N; relayer.recipient := 4%N; relayer.amount := 100;
     relayer.id := 6%N; relayer.nonce := nonce_; relayer.txHash := tx |}.

Definition sig_of (a : Address) (b : byte) : relayer.Witness :=
  {| relayer.addr := a; relayer.signature := [b; b] |}.

(** The same chain when the pages of the witness list cannot be read. *)
Definition pages_down (c : Chain) : relayer.Env :=
  {| relayer.witnessList_Read := fun method args =>
       if bool_decide (method = "count") then inl []
       else inr (extern_error "connection reset");
     relayer.witnessList_Unpack := relayer.witnessList_Unpack (chain_env c);
     relayer.validator_Read := relayer.validator_Read (chain_env c);
     relayer.validator_Unpack := relayer.validator_Unpack (chain_env c);
     relayer.validator_Execute := relayer.validator_Execute (chain_env c);
     relayer.GetReceiptByAction := relayer.GetReceiptByAction (chain_env c);
     relayer.GetAccount := relayer.GetAccount (chain_env c);
     relayer.address_FromBytes := relayer.address_FromBytes (chain_env c) |}.

(** A chain that holds a receipt for the action with hash [tx], and for no
    other. *)
Definition receipts_for (tx : string)
  : string -> option relayer.GetReceiptByActionResponse * option error :=
  fun h => if bool_decide (h = tx) then (Some {| relayer.receiptStatus := 1 |}, None)
           else (None, Some (status_Error NotFound "action not found")).

Definition receipt_chain : Chain :=
  {| c_active := [1; 2; 3]%N; c_account := demo_account; c_settle := 0;
     c_receipts := receipts_for (pretty 6%N) |}.

(** A driver that holds a cache from an earlier refresh. *)
Definition cached_driver : relayer.World :=
  {| relayer.tv :=
       {| relayer.gasLimit := 2000000; relayer.gasPrice := 1000000000000;
          relayer.relayerAddr := demo_io 100%N;
          relayer.validatorContractAddr := demo_io 200%N;
          relayer.witnesses := {[ demo_Hex 7 := true ]} |};
     relayer.stderr := []; relayer.alerts := []; relayer.sent := [] |}.

Definition sorted_sigs : list relayer.Witness :=
  [sig_of 1%N x01; sig_of 2%N x02; sig_of 3%N x03].

(** A decoder of [demo_Hex]. *)
Definition demo_unhex (s : string) : N :=
  match s with
  | String _ (String _ digits) =>
      match big_SetString digits with
      | Some z => Z.to_N z
      | None => 0%N
      end
  | _ => 0%N
  end.

Definition demo_pairs : gmap Address Address := {[ 2%N := 22%N ]}.

(** A store that refuses every statement. *)
Definition lock_timeout : error := extern_error "Error 1205: Lock wait timeout exceeded".

Definition refusing_world (rows : list witness.Row) : witness.World :=
  {| witness.db := {| witness.table := rows;
                      witness.fault := Some (witness.ExecFault lock_timeout) |};
     witness.stderr := [] |}.

(** A store whose cursors break after the first row. *)
Definition invalid_connection : error := extern_error "invalid connection".

Definition broken_cursor_world (rows : list witness.Row) : witness.World :=
  {| witness.db := {| witness.table := rows;
                      witness.fault := Some (witness.CursorFault 0 invalid_connection) |};
     witness.stderr := [] |}.

(** A new row whose amount is not a number, for a token outside the pairs. *)
Definition bad_amount_row : witness.Row :=
  {| witness.r_cashier := demo_Hex 1; witness.r_token := demo_Hex 8;
     witness.r_tidx := 11; witness.r_sender := demo_Hex 3;
     witness.r_recipient := demo_Hex 4; witness.r_amount := "12x";
     witness.r_status := "new"; witness.r_id := None;
     witness.r_blockHeight := 7; witness.r_txHash := demo_Hex 5 |}.


(** The spec's reading of the tip height: the largest [blockHeight] among the
    rows whose status is not "failed", 0 when there is none. *)
Definition spec_TipHeight (rows : list witness.Row) : Z :=
  match witness.sql_max
          (map witness.r_blockHeight
             (filter (fun r => witness.r_status r <> "failed") rows)) with
  | Some h => h
  | None => 0
  end.

(** * The recorder: properties *)

Section RecorderProperties.

Variable Hex : Address -> string.
Variable HashHex : Hash -> string.

Import witness.

Abbreviation AddTransfer := (witness.AddTransfer Hex HashHex).
Abbreviation AddTransfers := (witness.AddTransfers Hex HashHex).
Abbreviation ConfirmTransfer := (witness.ConfirmTransfer Hex HashHex).
Abbreviation row_of := (witness.row_of Hex HashHex).
Abbreviation key_of := (witness.key_of Hex).
Abbreviation duplicate_notice := (witness.duplicate_notice Hex).
Abbreviation confirmed_row := (witness.confirmed_row HashHex).

Lemma row_key_row_of tx : row_key (row_of tx) = key_of tx.
Proof. reflexivity. Qed.

Lemma existsb_has_key_false k (t : list Row) :
  existsb (has_key k) t = false <-> (forall r, r ∈ t -> row_key r <> k).
Proof.
  induction t as [|r t IH]; simpl.
  - split; [intros _ r Hr; inversion Hr | reflexivity].
  - rewrite orb_false_iff, IH. unfold has_key at 1.
    rewrite bool_decide_eq_false. split.
    + intros [Hr Ht] r' Hin. apply elem_of_cons in Hin as [->|Hin]; auto.
    + intros H. split; [apply H; left | intros r' Hr'; apply H; right; exact Hr'].
Qed.

Lemma existsb_has_key_true k (t : list Row) :
  existsb (has_key k) t = true <-> (exists r, r ∈ t /\ row_key r = k).
Proof.
  induction t as [|r t IH]; simpl.
  - split; [discriminate | intros (r & Hr & _); inversion Hr].
  - rewrite orb_true_iff, IH. unfold has_key at 1. rewrite bool_decide_eq_true.
    split.
    + intros [Hr | (r' & Hin & Hk)]; [exists r | exists r']; split; auto;
        [left | right; exact Hin].
    + intros (r' & Hin & Hk). apply elem_of_cons in Hin as [->|Hin]; eauto.
Qed.

Lemma sgn_guard_pass (z : Z) : 0 < z -> negb (bool_decide (Z.sgn z = 1)) = false.
Proof.
  intros H. rewrite bool_decide_eq_true_2; [reflexivity | apply Z.sgn_pos; exact H].
Qed.

Lemma sgn_guard_stop (z : Z) : z <= 0 -> negb (bool_decide (Z.sgn z = 1)) = true.
Proof.
  intros H. rewrite bool_decide_eq_false_2; [reflexivity |].
  intros Hs. apply Z.sgn_pos_iff in Hs. lia.
Qed.

Lemma validateID_pass (i : Z) (w : World) :
  i <> MaxInt64 - 1 -> validateID i w = (Return None, w).
Proof.
  intros H. unfold validateID. rewrite bool_decide_eq_false_2 by exact H. reflexivity.
Qed.

Lemma validateID_panic (w : World) :
  validateID (MaxInt64 - 1) w
  = (Panic overflow, add_log (Log "%v" [FErr (Some overflow)]) w).
Proof. reflexivity. Qed.

(** The first insertion of a key appends the row. *)
Lemma AddTransfer_fresh tx w :
  fault (db w) = None -> admissible tx ->
  (forall r, r ∈ table (db w) -> row_key r <> key_of tx) ->
  AddTransfer tx w = (Return None, set_table (table (db w) ++ [row_of tx]) w).
Proof.
  intros Hf [Hid Ham] Hfree.
  apply existsb_has_key_false in Hfree.
  unfold witness.AddTransfer, bind.
  rewrite validateID_pass by exact Hid.
  rewrite sgn_guard_pass by exact Ham.
  unfold Exec_insert_ignore, mk_result. rewrite Hf, row_key_row_of, Hfree.
  reflexivity.
Qed.

(** An insertion under a key that is taken changes no row, returns no
    error and logs the duplicate. *)
Lemma AddTransfer_duplicate tx w :
  fault (db w) = None -> admissible tx ->
  (exists r, r ∈ table (db w) /\ row_key r = key_of tx) ->
  AddTransfer tx w = (Return None, add_log (duplicate_notice tx) w).
Proof.
  intros Hf [Hid Ham] Htaken.
  apply existsb_has_key_true in Htaken.
  unfold witness.AddTransfer, bind.
  rewrite validateID_pass by exact Hid.
  rewrite sgn_guard_pass by exact Ham.
  unfold Exec_insert_ignore, mk_result. rewrite Hf, row_key_row_of, Htaken.
  simpl. reflexivity.
Qed.

(** Under a key that is taken no call changes the store, whether it passes
    the guards or not. *)
Lemma AddTransfer_taken_store tx w :
  (exists r, r ∈ table (db w) /\ row_key r = key_of tx) ->
  db (snd (AddTransfer tx w)) = db w.
Proof.
  intros Htaken. apply existsb_has_key_true in Htaken.
  unfold witness.AddTransfer, bind, validateID.
  destruct (bool_decide (index tx = MaxInt64 - 1)); [reflexivity |].
  cbn [ret]. destruct (negb (bool_decide (Z.sgn (amount tx) = 1))); [reflexivity |].
  unfold Exec_insert_ignore, mk_result. rewrite row_key_row_of, Htaken.
  destruct (fault (db w)) as [[e|e|e|? e]|]; reflexivity.
Qed.

Lemma AddTransfers_duplicates k txs w :
  fault (db w) = None ->
  (exists r, r ∈ table (db w) /\ row_key r = k) ->
  Forall (fun t => key_of t = k) txs ->
  exists results w',
    AddTransfers txs w = (results, w')
    /\ db w' = db w
    /\ Forall2 (fun t o => admissible t -> o = Return None) txs results
    /\ (Forall admissible txs -> stderr w' = stderr w ++ map duplicate_notice txs).
Proof.
  revert w. induction txs as [|t txs IH]; intros w Hf Htaken Hall.
  - exists [], w. cbn. rewrite app_nil_r. repeat split; constructor.
  - apply Forall_cons in Hall as [Hk Hall].
    assert (Ht : exists r, r ∈ table (db w) /\ row_key r = key_of t)
      by (rewrite Hk; exact Htaken).
    pose proof (AddTransfer_taken_store t w Ht) as Hdb.
    cbn [witness.AddTransfers].
    destruct (witness.AddTransfer Hex HashHex t w) as [o w1] eqn:Hrun. cbn [snd] in Hdb.
    destruct (IH w1) as (results & w' & Hrest & Hdb' & Hres & Hlog);
      [rewrite Hdb; exact Hf | rewrite Hdb; exact Htaken | exact Hall |].
    rewrite Hrest. exists (o :: results), w'.
    split; [reflexivity |]. split; [congruence |]. split.
    + constructor; [| exact Hres]. intros Hadm.
      rewrite (AddTransfer_duplicate t w Hf Hadm Ht) in Hrun. congruence.
    + intros Hadm. apply Forall_cons in Hadm as [Hadm Hadms].
      rewrite (AddTransfer_duplicate t w Hf Hadm Ht) in Hrun.
      injection Hrun as _ <-. rewrite (Hlog Hadms). cbn. rewrite <- app_assoc. reflexivity.
Qed.

(** C4: calls of [AddTransfer] that share one key (cashier, token, tidx), on
    a store without fault where the key is free at first and the first call
    passes the two guards: the first call inserts its row; every later call
    that passes the guards returns no error and logs one duplicate notice;
    and whatever the later calls are, the table holds exactly one row under
    the key, the one of the first call. *)
Theorem AddTransfer_same_key_idempotent tx txs w :
  fault (db w) = None ->
  (forall r, r ∈ table (db w) -> row_key r <> key_of tx) ->
  admissible tx ->
  Forall (fun t => cashier t = cashier tx /\ token t = token tx /\ index t = index tx) txs ->
  exists results w',
    AddTransfers (tx :: txs) w = (Return None :: results, w')
    /\ Forall2 (fun t o => admissible t -> o = Return None) txs results
    /\ filter (fun r => row_key r = key_of tx) (table (db w')) = [row_of tx]
    /\ table (db w') = table (db w) ++ [row_of tx]
    /\ (Forall admissible txs -> stderr w' = stderr w ++ map duplicate_notice txs).
Proof.
  intros Hf Hfree Hadm Hall.
  cbn [witness.AddTransfers].
  rewrite AddTransfer_fresh by assumption.
  destruct (AddTransfers_duplicates (key_of tx) txs
              (set_table (table (db w) ++ [row_of tx]) w))
    as (results & w' & Hrun & Hdb & Hres & Hlog).
  - exact Hf.
  - exists (row_of tx). split; [| reflexivity].
    cbn [db table set_table]. apply elem_of_app. right. left.
  - eapply Forall_impl; [exact Hall |].
    intros t (Hc & Ht & Hi). unfold witness.key_of. rewrite Hc, Ht, Hi. reflexivity.
  - rewrite Hrun. exists results, w'.
    split; [reflexivity |]. split; [exact Hres |].
    rewrite Hdb. cbn [db table stderr set_table] in *.
    split; [| split; [reflexivity | exact Hlog]].
    rewrite filter_app, filter_cons_True, filter_nil by reflexivity.
    replace (filter _ (table (db w))) with (@nil Row); [reflexivity |].
    symmetry. clear -Hfree. induction (table (db w)) as [|r t IH]; [reflexivity |].
    rewrite filter_cons_False by (apply Hfree; left).
    apply IH. intros r' Hr'. apply Hfree. right. exact Hr'.
Qed.

(** C5, as amended: [AddTransfer] panics exactly at tidx = 2^63 - 2
    ([math.MaxInt64 - 1]); there it logs the overflow and leaves the store
    as it was, and no other tidx, 2^63 - 1 included, makes it panic. *)
Theorem AddTransfer_panics_only_at_MaxInt64_minus_1 tx w :
  (index tx = 2 ^ 63 - 2 ->
     AddTransfer tx w = (Panic overflow, add_log (Log "%v" [FErr (Some overflow)]) w))
  /\ (index tx <> 2 ^ 63 - 2 -> is_panic (fst (AddTransfer tx w)) = false).
Proof.
  split.
  - intros Hi. unfold witness.AddTransfer, bind.
    replace (index tx) with (MaxInt64 - 1) by (rewrite Hi; reflexivity).
    rewrite validateID_panic. reflexivity.
  - intros Hi. unfold witness.AddTransfer, bind.
    rewrite validateID_pass by (unfold MaxInt64; lia).
    destruct (negb (bool_decide (Z.sgn (amount tx) = 1))); [reflexivity |].
    unfold Exec_insert_ignore, mk_result.
    destruct (fault (db w)) as [[e|e|e|? e]|]; try reflexivity;
      destruct (existsb _ _); reflexivity.
Qed.

(** Whatever [AddTransfer] leaves in the table was there before or is the
    row of a transfer with a positive amount. *)
Lemma AddTransfer_rows tx w r :
  r ∈ table (db (snd (AddTransfer tx w))) ->
  r ∈ table (db w) \/ (r = row_of tx /\ 0 < amount tx).
Proof.
  unfold witness.AddTransfer, bind, validateID.
  destruct (bool_decide (index tx = MaxInt64 - 1)); [simpl; auto |].
  cbn [ret]. destruct (bool_decide (Z.sgn (amount tx) = 1)) eqn:Hs; [| simpl; auto].
  apply bool_decide_eq_true in Hs. apply Z.sgn_pos_iff in Hs.
  cbn [negb]. unfold Exec_insert_ignore, mk_result.
  assert (Hin : r ∈ table (db w) ++ [row_of tx] ->
                r ∈ table (db w) \/ r = row_of tx /\ 0 < amount tx).
  { intros H. apply elem_of_app in H as [H|H]; [left; exact H |].
    apply list_elem_of_singleton in H. right. split; [exact H | exact Hs]. }
  destruct (fault (db w)) as [[e|e|e|? e]|]; try (simpl; auto; fail);
    destruct (existsb _ _); simpl; auto.
Qed.

(** C6: for every transfer with amount <= 0, [AddTransfer] fails on a
    violated invariant and writes no row: it returns the error "amount
    should be larger than 0" and leaves everything as it was, except at
    tidx = 2^63 - 2 where the ID check, which comes first, raises the
    overflow panic.  Hence every row that [AddTransfer] adds has a positive
    amount. *)
Theorem AddTransfer_rejects_nonpositive_amount tx w :
  amount tx <= 0 ->
  InvariantViolation (fst (AddTransfer tx w))
  /\ db (snd (AddTransfer tx w)) = db w
  /\ (index tx <> MaxInt64 - 1 -> AddTransfer tx w = (Return (Some amount_error), w))
  /\ (forall tx' w' r,
        r ∈ table (db (snd (AddTransfer tx' w'))) ->
        r ∈ table (db w') \/ (r = row_of tx' /\ 0 < amount tx')).
Proof.
  intros Ham.
  assert (Hpass : index tx <> MaxInt64 - 1 ->
                  AddTransfer tx w = (Return (Some amount_error), w)).
  { intros Hi. unfold witness.AddTransfer, bind.
    rewrite validateID_pass by exact Hi.
    rewrite sgn_guard_stop by exact Ham. reflexivity. }
  split; [| split; [| split]].
  - destruct (decide (index tx = MaxInt64 - 1)) as [Hi | Hi].
    + right. unfold witness.AddTransfer, bind. rewrite Hi, validateID_panic. reflexivity.
    + left. rewrite (Hpass Hi). reflexivity.
  - destruct (decide (index tx = MaxInt64 - 1)) as [Hi | Hi].
    + unfold witness.AddTransfer, bind. rewrite Hi, validateID_panic. reflexivity.
    + rewrite (Hpass Hi). reflexivity.
  - exact Hpass.
  - intros tx' w' r. apply AddTransfer_rows.
Qed.

Lemma NoDup_row_key_inj (t : list Row) r1 r2 :
  NoDup (map row_key t) -> r1 ∈ t -> r2 ∈ t -> row_key r1 = row_key r2 -> r1 = r2.
Proof.
  induction t as [|a t IH]; intros Hnd H1 H2 Hk; [inversion H1 |].
  cbn [map] in Hnd. apply NoDup_cons in Hnd as [Ha Hnd].
  apply elem_of_cons in H1 as [->|H1]; apply elem_of_cons in H2 as [->|H2].
  - reflexivity.
  - exfalso. apply Ha. rewrite Hk. apply (list_elem_of_fmap_2 row_key). exact H2.
  - exfalso. apply Ha. rewrite <- Hk. apply (list_elem_of_fmap_2 row_key). exact H1.
  - apply IH; assumption.
Qed.

Lemma filter_bool_none (P : Row -> bool) (t : list Row) :
  (forall r, r ∈ t -> P r = false) -> filter P t = [].
Proof.
  induction t as [|a t IH]; intros H; [reflexivity |].
  rewrite filter_cons_False.
  - apply IH. intros r Hr. apply H. right. exact Hr.
  - rewrite (H a) by left. intros [].
Qed.

Lemma filter_bool_unique (P : Row -> bool) (t : list Row) r0 :
  NoDup t -> r0 ∈ t -> (forall r, r ∈ t -> P r = true <-> r = r0) ->
  length (filter P t) = 1%nat.
Proof.
  induction t as [|a t IH]; intros Hnd Hin HP; [inversion Hin |].
  apply NoDup_cons in Hnd as [Ha Hnd].
  destruct (decide (a = r0)) as [->|Hne].
  - rewrite filter_cons_True by (apply Is_true_true, HP; [left | reflexivity]).
    rewrite filter_bool_none; [reflexivity |].
    intros r Hr. destruct (P r) eqn:E; [| reflexivity].
    apply HP in E; [| right; exact Hr]. subst r. contradiction.
  - apply elem_of_cons in Hin as [->|Hin]; [contradiction |].
    rewrite filter_cons_False.
    + apply IH; [exact Hnd | exact Hin |]. intros r Hr. apply HP. right. exact Hr.
    + intros HPa. apply Is_true_true in HPa. apply HP in HPa; [| left]. contradiction.
Qed.

Lemma map_where_none (set : Row -> Row) (where_ : Row -> bool) (t : list Row) :
  (forall r, r ∈ t -> where_ r = false) ->
  map (fun r => if where_ r then set r else r) t = t.
Proof.
  induction t as [|a t IH]; intros H; [reflexivity |].
  cbn [map]. rewrite (H a) by left. f_equal. apply IH.
  intros r Hr. apply H. right. exact Hr.
Qed.

Lemma confirmed_row_changes tx r : r_status r = TransferNew -> confirmed_row tx r <> r.
Proof.
  intros Hs Heq. apply (f_equal r_status) in Heq. rewrite Hs in Heq. discriminate.
Qed.

(** C3, as amended: on a store without fault whose rows have distinct
    keys, [ConfirmTransfer] succeeds exactly when the row of the transfer
    has status new; it then sets that row to confirmed and writes its id,
    and touches no other row.  When the row is absent or in any other
    status it returns the row-count error and the table is as before. *)
Theorem ConfirmTransfer_new_to_confirmed tx w :
  fault (db w) = None ->
  NoDup (map row_key (table (db w))) ->
  ((exists r, r ∈ table (db w) /\ row_key r = key_of tx /\ r_status r = TransferNew) ->
     exists w',
       ConfirmTransfer tx w = (Return None, w')
       /\ table (db w')
          = map (fun r => if bool_decide (row_key r = key_of tx)
                          then confirmed_row tx r else r) (table (db w)))
  /\ ((forall r, r ∈ table (db w) -> row_key r = key_of tx -> r_status r <> TransferNew) ->
       ConfirmTransfer tx w
       = (Return (Some (stale_rows 0)),
          add_log (Log "mark transfer %s as confirmed" [FStr (HashHex (id tx))]) w)).
Proof.
  intros Hf Hnd. split.
  - intros (r0 & Hin & Hk & Hs). eexists.
    unfold witness.ConfirmTransfer, bind, log_Printf, Exec_update, mk_result.
    cbn [db fault table]. rewrite Hf.
    assert (Hwhere : forall r, r ∈ table (db w) ->
              where_key_status Hex tx TransferNew r = bool_decide (row_key r = key_of tx)).
    { intros r Hr. unfold where_key_status, has_key.
      destruct (bool_decide (row_key r = key_of tx)) eqn:E; [| reflexivity].
      apply bool_decide_eq_true in E.
      assert (r = r0) as -> by (eapply NoDup_row_key_inj; eauto; congruence).
      rewrite bool_decide_eq_true_2 by exact Hs. reflexivity. }
    rewrite (filter_bool_unique _ _ r0).
    + unfold validateResult. cbn. split; [reflexivity |].
      apply map_ext_in. intros r Hr. apply list_elem_of_In in Hr.
      rewrite Hwhere by exact Hr. reflexivity.
    + eapply NoDup_fmap_1. exact Hnd.
    + exact Hin.
    + intros r Hr. rewrite Hwhere by exact Hr. split.
      * intros Hb. apply andb_true_iff in Hb as [Hb _].
        apply bool_decide_eq_true in Hb.
        eapply NoDup_row_key_inj; eauto; congruence.
      * intros ->. apply andb_true_iff. split.
        -- apply bool_decide_eq_true. exact Hk.
        -- apply negb_true_iff, bool_decide_eq_false.
           apply confirmed_row_changes. exact Hs.
  - intros Hnone.
    assert (Hwhere : forall r, r ∈ table (db w) ->
              where_key_status Hex tx TransferNew r = false).
    { intros r Hr. unfold where_key_status, has_key.
      destruct (bool_decide (row_key r = key_of tx)) eqn:E; [| reflexivity].
      apply bool_decide_eq_true in E.
      rewrite bool_decide_eq_false_2; [reflexivity | apply Hnone; assumption]. }
    unfold witness.ConfirmTransfer, bind, log_Printf, Exec_update, mk_result.
    cbn [db fault table]. rewrite Hf.
    rewrite filter_bool_none.
    + rewrite map_where_none by exact Hwhere.
      unfold validateResult. cbn. destruct w as [[t f] l]. reflexivity.
    + intros r Hr. rewrite Hwhere by exact Hr. reflexivity.
Qed.

Lemma fold_max_spec (l : list Z) (a : Z) :
  let m := fold_left Z.max l a in
  (m = a \/ m ∈ l) /\ a <= m /\ (forall x, x ∈ l -> x <= m).
Proof.
  revert a. induction l as [|y l IH]; intros a; cbn.
  - split; [left; reflexivity | split; [lia | intros x Hx; inversion Hx]].
  - destruct (IH (Z.max a y)) as (Hm & Hle & Hall).
    split; [| split].
    + destruct Hm as [Hm | Hm]; [| right; right; exact Hm].
      destruct (Z.max_spec a y) as [[_ E] | [_ E]]; rewrite E in *.
      * right. rewrite Hm. left.
      * left. exact Hm.
    + lia.
    + intros x Hx. apply elem_of_cons in Hx as [-> | Hx]; [lia | apply Hall, Hx].
Qed.

Lemma sql_max_spec (l : list Z) (h : Z) :
  sql_max l = Some h -> h ∈ l /\ (forall x, x ∈ l -> x <= h).
Proof.
  destruct l as [|a l]; [discriminate |]. cbn. intros [= <-].
  destruct (fold_max_spec l a) as (Hm & Hle & Hall). split.
  - destruct Hm as [-> | Hm]; [left | right; exact Hm].
  - intros x Hx. apply elem_of_cons in Hx as [-> | Hx]; [exact Hle | apply Hall, Hx].
Qed.

(** C7, as amended: [TipHeight] never returns an error and leaves the
    store alone; a failed scan gives 0, an empty table gives 0, and
    otherwise the result is the largest [blockHeight] of all the rows of
    the table, whatever their status. *)
Theorem TipHeight_max_of_all_rows w :
  exists h,
    TipHeight w = (Return (h, None), w)
    /\ ((exists e, fault (db w) = Some (QueryFault e)) -> h = 0)
    /\ (table (db w) = [] -> h = 0)
    /\ ((forall e, fault (db w) <> Some (QueryFault e)) ->
        table (db w) <> [] ->
        (forall r, r ∈ table (db w) -> 0 <= r_blockHeight r < 2 ^ 64) ->
        (exists r, r ∈ table (db w) /\ r_blockHeight r = h)
        /\ (forall r, r ∈ table (db w) -> r_blockHeight r <= h)).
Proof.
  unfold TipHeight, bind, QueryRow_max_blockHeight.
  destruct (fault (db w)) as [[e|e|e|? e]|] eqn:Hf.
  3: { exists 0. cbn. split; [reflexivity |]. split; [reflexivity |].
       split; [reflexivity |]. intros Hno. exfalso. apply (Hno e). reflexivity. }
  all: destruct (sql_max (map r_blockHeight (table (db w)))) as [h|] eqn:Hmax;
    [ exists (uint64 h) | exists 0 ]; cbn [ret];
    (split; [reflexivity |]);
    (split; [intros [e' He']; discriminate |]);
    (split; [intros Hnil; rewrite Hnil in Hmax; cbn in Hmax; congruence |]);
    intros _ Hne Hrange.
  all: try (destruct (table (db w)); [congruence | discriminate]).
  all: apply sql_max_spec in Hmax as [Hin Hle];
    apply list_elem_of_fmap in Hin as (r0 & -> & Hr0);
    assert (Hu : uint64 (r_blockHeight r0) = r_blockHeight r0)
      by (unfold uint64; apply Z.mod_small, Hrange, Hr0);
    rewrite Hu; split;
    [ exists r0; split; [exact Hr0 | reflexivity]
    | intros r Hr; apply Hle, (list_elem_of_fmap_2 r_blockHeight), Hr ].
Qed.

End RecorderProperties.

(** A later call under the same key that fails the amount guard returns the
    error of the guard; the row of the first call stays as it is. *)
Lemma AddTransfer_duplicate_call_may_fail :
  witness.AddTransfers demo_Hex demo_Hex
    [demo_transfer 9 100 7; demo_transfer 9 0 8] empty_world
  = ([Return None; Return (Some (errors_New "amount should be larger than 0"))],
     world_of [witness.row_of demo_Hex demo_Hex (demo_transfer 9 100 7)]).
Proof. reflexivity. Qed.

Lemma AddTransfer_same_key_idempotent_witness :
  exists results w',
    witness.AddTransfers demo_Hex demo_Hex
      [demo_transfer 9 100 7; demo_transfer 9 5 8; demo_transfer 9 100 7] empty_world
    = (Return None :: results, w')
    /\ Forall2 (fun t o => witness.admissible t -> o = Return None)
         [demo_transfer 9 5 8; demo_transfer 9 100 7] results
    /\ filter (fun r => witness.row_key r = witness.key_of demo_Hex (demo_transfer 9 100 7))
         (witness.table (witness.db w'))
       = [witness.row_of demo_Hex demo_Hex (demo_transfer 9 100 7)]
    /\ witness.table (witness.db w')
       = [witness.row_of demo_Hex demo_Hex (demo_transfer 9 100 7)]
    /\ (Forall witness.admissible [demo_transfer 9 5 8; demo_transfer 9 100 7] ->
        witness.stderr w'
        = map (witness.duplicate_notice demo_Hex)
            [demo_transfer 9 5 8; demo_transfer 9 100 7]).
Proof.
  apply (AddTransfer_same_key_idempotent demo_Hex demo_Hex
           (demo_transfer 9 100 7) [demo_transfer 9 5 8; demo_transfer 9 100 7] empty_world).
  - reflexivity.
  - intros r Hr. inversion Hr.
  - split; [discriminate | reflexivity].
  - repeat constructor.
Defined.

(** C5, as stated, fails: at tidx = 2^63 - 1 [AddTransfer] does not panic;
    it inserts the row and returns no error. *)
Lemma AddTransfer_no_panic_at_2_63_minus_1 :
  witness.index (demo_transfer (2 ^ 63 - 1) 100 7) = 2 ^ 63 - 1
  /\ witness.AddTransfer demo_Hex demo_Hex (demo_transfer (2 ^ 63 - 1) 100 7) empty_world
     = (Return None,
        world_of [witness.row_of demo_Hex demo_Hex (demo_transfer (2 ^ 63 - 1) 100 7)]).
Proof. split; reflexivity. Qed.

Lemma AddTransfer_panics_only_at_MaxInt64_minus_1_witness :
  witness.AddTransfer demo_Hex demo_Hex (demo_transfer (2 ^ 63 - 2) 100 7) empty_world
  = (Panic witness.overflow,
     witness.add_log (Log "%v" [FErr (Some witness.overflow)]) empty_world)
  /\ is_panic (fst (witness.AddTransfer demo_Hex demo_Hex (demo_transfer 9 100 7) empty_world))
     = false.
Proof.
  split.
  - apply (AddTransfer_panics_only_at_MaxInt64_minus_1 demo_Hex demo_Hex
             (demo_transfer (2 ^ 63 - 2) 100 7) empty_world). reflexivity.
  - apply (AddTransfer_panics_only_at_MaxInt64_minus_1 demo_Hex demo_Hex
             (demo_transfer 9 100 7) empty_world). discriminate.
Defined.

(** With amount 0 and tidx = 2^63 - 2 the ID check comes first: the failure
    is the overflow panic, and the store stays empty. *)
Lemma AddTransfer_zero_amount_at_overflow :
  fst (witness.AddTransfer demo_Hex demo_Hex (demo_transfer (2 ^ 63 - 2) 0 7) empty_world)
  = Panic witness.overflow
  /\ witness.db (snd (witness.AddTransfer demo_Hex demo_Hex
                        (demo_transfer (2 ^ 63 - 2) 0 7) empty_world))
     = witness.db empty_world.
Proof. split; reflexivity. Qed.

Lemma AddTransfer_rejects_nonpositive_amount_witness :
  witness.InvariantViolation
    (fst (witness.AddTransfer demo_Hex demo_Hex (demo_transfer 9 0 7) empty_world))
  /\ witness.db (snd (witness.AddTransfer demo_Hex demo_Hex (demo_transfer 9 0 7) empty_world))
     = witness.db empty_world
  /\ witness.AddTransfer demo_Hex demo_Hex (demo_transfer 9 0 7) empty_world
     = (Return (Some witness.amount_error), empty_world).
Proof.
  destruct (AddTransfer_rejects_nonpositive_amount demo_Hex demo_Hex
              (demo_transfer 9 0 7) empty_world) as (Hviol & Hdb & Herr & _).
  - simpl. lia.
  - split; [exact Hviol | split; [exact Hdb | apply Herr; discriminate]].
Defined.

(** C3, as stated, fails: a row in status submitted is refused, and a row in
    status new is the one that [ConfirmTransfer] moves to confirmed. *)
Lemma ConfirmTransfer_not_from_submitted :
  fst (witness.ConfirmTransfer demo_Hex demo_Hex (demo_transfer 9 100 7)
         (world_of [demo_row "submitted" 7]))
  = Return (Some (witness.stale_rows 0))
  /\ witness.table (witness.db (snd (witness.ConfirmTransfer demo_Hex demo_Hex
                                      (demo_transfer 9 100 7)
                                      (world_of [demo_row "submitted" 7]))))
     = [demo_row "submitted" 7]
  /\ fst (witness.ConfirmTransfer demo_Hex demo_Hex (demo_transfer 9 100 7)
            (world_of [demo_row "new" 7]))
     = Return None
  /\ map witness.r_status
       (witness.table (witness.db (snd (witness.ConfirmTransfer demo_Hex demo_Hex
                                          (demo_transfer 9 100 7)
                                          (world_of [demo_row "new" 7])))))
     = ["confirmed"].
Proof. repeat split. Qed.

Lemma ConfirmTransfer_new_to_confirmed_witness :
  exists w',
    witness.ConfirmTransfer demo_Hex demo_Hex (demo_transfer 9 100 7)
      (world_of [demo_row "new" 7]) = (Return None, w')
    /\ witness.table (witness.db w')
       = [witness.confirmed_row demo_Hex (demo_transfer 9 100 7) (demo_row "new" 7)].
Proof.
  destruct (ConfirmTransfer_new_to_confirmed demo_Hex demo_Hex (demo_transfer 9 100 7)
              (world_of [demo_row "new" 7])) as [Hnew _].
  - reflexivity.
  - apply NoDup_singleton.
  - destruct Hnew as (w' & Hrun & Htable).
    + exists (demo_row "new" 7). split; [left | split; reflexivity].
    + exists w'. split; [exact Hrun | exact Htable].
Defined.

(** C7, as stated, fails: a failed row counts for the tip height. *)
Lemma TipHeight_counts_failed_rows :
  witness.TipHeight (world_of [demo_row "new" 3; demo_row "failed" 7])
  = (Return (7, None), world_of [demo_row "new" 3; demo_row "failed" 7])
  /\ spec_TipHeight [demo_row "new" 3; demo_row "failed" 7] = 3.
Proof. split; reflexivity. Qed.

Lemma TipHeight_max_of_all_rows_witness :
  exists h,
    witness.TipHeight (world_of [demo_row "new" 3; demo_row "failed" 7])
    = (Return (h, None), world_of [demo_row "new" 3; demo_row "failed" 7])
    /\ (exists r, r ∈ [demo_row "new" 3; demo_row "failed" 7] /\ witness.r_blockHeight r = h)
    /\ (forall r, r ∈ [demo_row "new" 3; demo_row "failed" 7] -> witness.r_blockHeight r <= h).
Proof.
  destruct (TipHeight_max_of_all_rows (world_of [demo_row "new" 3; demo_row "failed" 7]))
    as (h & Hrun & _ & _ & Hmax).
  exists h. split; [exact Hrun |]. apply Hmax.
  - discriminate.
  - discriminate.
  - intros r Hr. cbn in Hr.
    apply elem_of_cons in Hr as [-> | Hr]; [cbn; lia |].
    apply list_elem_of_singleton in Hr as ->. cbn. lia.
Defined.

(** * The validator driver: properties *)

Section DriverProperties.

Variable Hex : Address -> string.
Variable env : relayer.Env.

Import relayer.

Abbreviation refresh := (relayer.refresh Hex env).
Abbreviation activate := (relayer.activate Hex env).
Abbreviation pages := (relayer.pages env).
Abbreviation getActiveItems := (relayer.getActiveItems env).
Abbreviation cache_of := (relayer.cache_of Hex).
Abbreviation isActiveWitness := (relayer.isActiveWitness Hex).
Abbreviation collect := (relayer.collect Hex env).
Abbreviation send := (relayer.send env).
Abbreviation submit := (relayer.submit Hex env).
Abbreviation active_of := (relayer.active_of Hex).
Abbreviation account_ready := (relayer.account_ready env).
Abbreviation sent_result := (relayer.sent_result env).

(** The second loop of [refresh] changes neither the driver nor the list of
    submissions; it fails on the first address that does not convert and
    otherwise returns the map with every address added. *)
Lemma activate_spec (ws : list Address) (m : gmap string bool) (w : World) :
  tv (snd (activate ws m w)) = tv w
  /\ sent (snd (activate ws m w)) = sent w
  /\ ((exists e, fst (activate ws m w) = Return (inr e))
      \/ (fst (activate ws m w) = Return (inl (foldl (fun m a => <[Hex a := true]> m) m ws))
          /\ forall a, a ∈ ws -> exists io, address_FromBytes env a = inl io)).
Proof.
  revert m w. induction ws as [|a ws IH]; intros m w.
  - cbn. split; [reflexivity | split; [reflexivity |]].
    right. split; [reflexivity | intros a Ha; inversion Ha].
  - cbn [relayer.activate foldl].
    destruct (address_FromBytes env a) as [io|e] eqn:Ha.
    + unfold bind, log_Printf.
      match goal with |- context [relayer.activate _ _ ws ?m' ?w'] =>
        destruct (IH m' w') as (Htv & Hsent & Hres) end.
      split; [exact Htv | split; [exact Hsent |]].
      destruct Hres as [Herr | [Hok Hall]]; [left; exact Herr | right].
      split; [exact Hok |].
      intros a' Ha'. apply elem_of_cons in Ha' as [-> | Ha']; [eauto | apply Hall, Ha'].
    + cbn. split; [reflexivity | split; [reflexivity |]]. left. eauto.
Qed.

(** When the paging loop returns the addresses, every page up to the count
    was read and decoded. *)
Lemma pages_all_read (count offset : Z) (acc fetched : list Address) :
  pages count offset acc = Return (inl fetched) ->
  forall o, offset <= o < count -> (o - offset) mod 10 = 0 ->
            exists page, getActiveItems o = Return (inl page).
Proof.
  funelim (relayer.pages env count offset acc); intros Hrun o Ho Hmod.
  - lia.
  - destruct (decide (o = offset)) as [-> | Hne]; [eauto |].
    assert (offset + 10 <= o).
    { assert (0 < o - offset) by lia.
      pose proof (Z.div_mod (o - offset) 10 ltac:(lia)) as Hd.
      rewrite Hmod in Hd. lia. }
    eapply H; [exact Hrun | unfold limit; lia |].
    unfold limit. replace (o - (offset + 10)) with (o - offset + (-1) * 10) by lia.
    rewrite Z.mod_add by lia. exact Hmod.
  - discriminate.
  - discriminate.
Qed.

Ltac stops Hrun :=
  cbn in Hrun; injection Hrun as <- <-; cbn;
  repeat split; try reflexivity; try (intros; discriminate).

(** [refresh] either returns no error and replaces the cache, or leaves the
    driver as it was; it never touches the list of submissions. *)
Lemma refresh_spec (w : World) :
  sent (snd (refresh w)) = sent w
  /\ (fst (refresh w) <> Return None -> tv (snd (refresh w)) = tv w)
  /\ (fst (refresh w) = Return None ->
      exists data count rest fetched,
        witnessList_Read env "count" [] = inl data
        /\ witnessList_Unpack env "count" data = inl (abi_uint count :: rest)
        /\ pages count 0 [] = Return (inl fetched)
        /\ (forall a, a ∈ fetched -> exists io, address_FromBytes env a = inl io)
        /\ tv (snd (refresh w))
           = {| gasLimit := gasLimit (tv w); gasPrice := gasPrice (tv w);
                relayerAddr := relayerAddr (tv w);
                validatorContractAddr := validatorContractAddr (tv w);
                witnesses := cache_of fetched |}).
Proof.
  destruct (relayer.refresh Hex env w) as [o w'] eqn:Hrun. cbn [fst snd].
  unfold relayer.refresh in Hrun.
  destruct (witnessList_Read env "count" []) as [data|e] eqn:Hread; [| stops Hrun].
  destruct (witnessList_Unpack env "count" data) as [[|v rest]|e] eqn:Hunpack;
    [stops Hrun | | stops Hrun].
  destruct v as [count| | | | |]; try (stops Hrun).
  unfold bind, lift in Hrun.
  destruct (relayer.pages env count 0 []) as [[fetched|e]|e] eqn:Hpages;
    [| stops Hrun | stops Hrun].
  unfold log_Printf at 1 in Hrun.
  match type of Hrun with context [relayer.activate _ _ fetched ∅ ?w1] =>
    pose proof (activate_spec fetched ∅ w1) as (Htv & Hsent & Hres);
    destruct (relayer.activate Hex env fetched ∅ w1) as [[[m|e]|e] w2] end;
    cbn in Htv, Hsent, Hres, Hrun; injection Hrun as <- <-; cbn.
  - split; [exact Hsent | split; [intros H; contradiction |]].
    intros _. exists data, count, rest, fetched.
    destruct Hres as [[e He] | [Hm Hall]]; [discriminate |].
    injection Hm as ->. rewrite Htv. repeat split; auto.
  - repeat split; auto. intros; discriminate.
  - repeat split; auto. intros; discriminate.
Qed.

(** C10: a call of [refresh] that fails at any step (the count read, a page
    read, a decoding, an address conversion) or panics leaves the cached
    witness set, and the whole driver, as it was; when it returns no error
    the count was read, every page up to the count was read and decoded,
    every address converted, and the cache is the set built from all of
    them. *)
Theorem refresh_all_or_nothing (w : World) :
  (fst (refresh w) <> Return None ->
     witnesses (tv (snd (refresh w))) = witnesses (tv w)
     /\ tv (snd (refresh w)) = tv w)
  /\ (fst (refresh w) = Return None ->
      exists data count rest fetched,
        witnessList_Read env "count" [] = inl data
        /\ witnessList_Unpack env "count" data = inl (abi_uint count :: rest)
        /\ pages count 0 [] = Return (inl fetched)
        /\ (forall o, 0 <= o < count -> o mod 10 = 0 ->
                      exists page, getActiveItems o = Return (inl page))
        /\ (forall a, a ∈ fetched -> exists io, address_FromBytes env a = inl io)
        /\ witnesses (tv (snd (refresh w))) = cache_of fetched).
Proof.
  destruct (refresh_spec w) as (_ & Hfail & Hok). split.
  - intros H. rewrite (Hfail H). split; reflexivity.
  - intros H. destruct (Hok H) as (data & count & rest & fetched & Hr & Hu & Hp & Hc & Htv).
    exists data, count, rest, fetched. repeat split; try assumption.
    + intros o Ho Hmod. eapply pages_all_read; [exact Hp | lia |].
      rewrite Z.sub_0_r. exact Hmod.
    + rewrite Htv. reflexivity.
Qed.

(** The first loop of [submit] changes neither the driver nor the list of
    submissions, and a result it returns holds the signatures of the active
    witnesses in the order of the list, and their number. *)
Lemma collect_frame this (ws : list Witness) (sigs : list byte) (n : Z) (w : World) :
  tv (snd (collect this ws sigs n w)) = tv w
  /\ sent (snd (collect this ws sigs n w)) = sent w.
Proof.
  revert sigs n w. induction ws as [|x ws IH]; intros sigs n w; [split; reflexivity |].
  cbn [relayer.collect].
  destruct (relayer.isActiveWitness Hex this (addr x)); cbn [negb]; [apply IH |].
  destruct (address_FromBytes env (addr x)) as [a|e]; [| split; reflexivity].
  unfold bind, log_Printf.
  match goal with |- context [relayer.collect _ _ this ws sigs n ?w1] =>
    destruct (IH sigs n w1) as [Htv Hsent] end.
  split; [exact Htv | exact Hsent].
Qed.

Lemma collect_result this (ws : list Witness) (sigs : list byte) (n : Z) (w : World) s k :
  fst (collect this ws sigs n w) = Return (inl (s, k)) ->
  s = sigs ++ payload (active_of this ws)
  /\ k = n + Z.of_nat (length (active_of this ws)).
Proof.
  revert sigs n w. induction ws as [|x ws IH]; intros sigs n w.
  - cbn. intros [= <- <-]. rewrite app_nil_r. split; [reflexivity | lia].
  - cbn [relayer.collect]. unfold relayer.active_of.
    destruct (relayer.isActiveWitness Hex this (addr x)) eqn:Hx; cbn [negb].
    + rewrite filter_cons_True by exact Hx. intros Hrun.
      apply IH in Hrun as [-> ->]. unfold relayer.active_of, payload. cbn.
      rewrite <- app_assoc. split; [reflexivity | lia].
    + rewrite filter_cons_False by (rewrite Hx; discriminate).
      destruct (address_FromBytes env (addr x)) as [a|e]; [| discriminate].
      unfold bind, log_Printf. intros Hrun. eapply IH. exact Hrun.
Qed.

(** What [Check] answers, by the settle height and by the outcome of the
    receipt request it issues. *)
Lemma Check_decision_order t (w : World) data height rest :
  validator_Read env "settles" [abi_hash (id t)] = inl data ->
  validator_Unpack env "settles" data = inl (abi_uint height :: rest) ->
  (0 < height -> relayer.Check env t w = (Return (StatusOnChainSettled, None), w))
  /\ (height <= 0 ->
      forall response err,
        GetReceiptByAction env {| ActionHash := "" |} = (response, err) ->
        relayer.Check env t w
        = (Return match status_Code err with
                  | NotFound => (StatusOnChainNeedSpeedUp, None)
                  | OK => match response with
                          | Some _ => (StatusOnChainRejected, None)
                          | None => (StatusOnChainNotConfirmed, None)
                          end
                  | _ => (StatusOnChainUnknown, err)
                  end, w)).
Proof.
  intros Hread Hunpack. unfold relayer.Check. rewrite Hread, Hunpack. split.
  - intros Hpos. rewrite (proj2 (Z.ltb_lt _ _)) by exact Hpos. reflexivity.
  - intros Hle response err Hreceipt. rewrite (proj2 (Z.ltb_ge _ _)) by exact Hle.
    rewrite Hreceipt. destruct (status_Code err), response; reflexivity.
Qed.

(** The answer of [Check] depends on the id of the transfer alone: neither
    the hash of its last submission nor its nonce is looked at. *)
Lemma Check_reads_id_only t1 t2 (w : World) :
  id t1 = id t2 -> relayer.Check env t1 w = relayer.Check env t2 w.
Proof. intros H. unfold relayer.Check. rewrite H. reflexivity. Qed.

End DriverProperties.

(** C9: the chain holds a receipt for the last submission of the transfer,
    and [Check] answers NeedSpeedUp, not Rejected: it asks for the receipt
    with an empty request. *)
Theorem Check_ignores_last_submission :
  c_receipts receipt_chain (pretty (relayer.txHash (demo_relay 42 6%N)))
  = (Some {| relayer.receiptStatus := 1 |}, None)
  /\ relayer.Check (chain_env receipt_chain) (demo_relay 42 6%N) demo_driver
     = (Return (relayer.StatusOnChainNeedSpeedUp, None), demo_driver).
Proof. split; vm_compute; reflexivity. Qed.

Lemma refresh_all_or_nothing_witness :
  relayer.witnesses
    (relayer.tv (snd (relayer.refresh demo_Hex (pages_down demo_chain) cached_driver)))
  = {[ demo_Hex 7 := true ]}
  /\ exists fetched,
       relayer.witnesses
         (relayer.tv (snd (relayer.refresh demo_Hex (chain_env empty_chain) cached_driver)))
       = relayer.cache_of demo_Hex fetched.
Proof.
  split.
  - apply (refresh_all_or_nothing demo_Hex (pages_down demo_chain) cached_driver).
    vm_compute. discriminate.
  - destruct (proj2 (refresh_all_or_nothing demo_Hex (chain_env empty_chain) cached_driver))
      as (data & count & rest & fetched & _ & _ & _ & _ & _ & Hcache).
    + vm_compute. reflexivity.
    + exists fetched. exact Hcache.
Defined.

(** * The recorder: the other mutator, the queues and how they compose *)

Section RecorderQueues.

Variable Hex : Address -> string.
Variable HashHex : Hash -> string.
Variable HexToAddress : string -> Address.
Variable HexToHash : string -> Hash.
Variable tokenPairs : gmap Address Address.

Import witness.

Abbreviation AddTransfer := (witness.AddTransfer Hex HashHex).
Abbreviation ConfirmTransfer := (witness.ConfirmTransfer Hex HashHex).
Abbreviation SettleTransfer := (witness.SettleTransfer Hex HashHex).
Abbreviation row_of := (witness.row_of Hex HashHex).
Abbreviation key_of := (witness.key_of Hex).
Abbreviation confirmed_row := (witness.confirmed_row HashHex).
Abbreviation where_key_status := (witness.where_key_status Hex).
Abbreviation transfers := (witness.transfers HexToAddress HexToHash tokenPairs).
Abbreviation TransfersToSubmit := (witness.TransfersToSubmit HexToAddress HexToHash tokenPairs).
Abbreviation TransfersToSettle := (witness.TransfersToSettle HexToAddress HexToHash tokenPairs).
Abbreviation scan_row := (witness.scan_row HexToAddress HexToHash tokenPairs).
Abbreviation scan_rows := (witness.scan_rows HexToAddress HexToHash tokenPairs).
Abbreviation update_from := (witness.update_from Hex).
Abbreviation rewrite_key := (witness.rewrite_key Hex).

Lemma update_from_hit tx from set w :
  fault (db w) = None ->
  NoDup (map row_key (table (db w))) ->
  (forall r, r_status r = from -> set r <> r) ->
  (exists r, r ∈ table (db w) /\ row_key r = key_of tx /\ r_status r = from) ->
  update_from tx from set w = (Return None, set_table (rewrite_key tx set (table (db w))) w).
Proof.
  intros Hf Hnd Hset (r0 & Hin & Hk & Hs).
  unfold witness.update_from, bind, Exec_update, mk_result. rewrite Hf.
  assert (Hwhere : forall r, r ∈ table (db w) ->
            where_key_status tx from r = bool_decide (row_key r = key_of tx)).
  { intros r Hr. unfold witness.where_key_status, has_key.
    destruct (bool_decide (row_key r = key_of tx)) eqn:E; [| reflexivity].
    apply bool_decide_eq_true in E.
    assert (r = r0) as -> by (eapply NoDup_row_key_inj; eauto; congruence).
    rewrite bool_decide_eq_true_2 by exact Hs. reflexivity. }
  rewrite (filter_bool_unique _ _ r0).
  - unfold validateResult. cbn. f_equal. unfold witness.rewrite_key, set_table. do 2 f_equal.
    apply map_ext_in. intros r Hr. apply list_elem_of_In in Hr.
    rewrite Hwhere by exact Hr. reflexivity.
  - eapply NoDup_fmap_1. exact Hnd.
  - exact Hin.
  - intros r Hr. rewrite Hwhere by exact Hr. split.
    + intros Hb. apply andb_true_iff in Hb as [Hb _].
      apply bool_decide_eq_true in Hb.
      eapply NoDup_row_key_inj; eauto; congruence.
    + intros ->. apply andb_true_iff. split.
      * apply bool_decide_eq_true. exact Hk.
      * apply negb_true_iff, bool_decide_eq_false. apply Hset. exact Hs.
Qed.

Lemma update_from_miss tx from set w :
  fault (db w) = None ->
  (forall r, r ∈ table (db w) -> row_key r = key_of tx -> r_status r <> from) ->
  update_from tx from set w = (Return (Some (stale_rows 0)), w).
Proof.
  intros Hf Hnone.
  assert (Hwhere : forall r, r ∈ table (db w) -> where_key_status tx from r = false).
  { intros r Hr. unfold witness.where_key_status, has_key.
    destruct (bool_decide (row_key r = key_of tx)) eqn:E; [| reflexivity].
    apply bool_decide_eq_true in E.
    rewrite bool_decide_eq_false_2; [reflexivity | apply Hnone; assumption]. }
  unfold witness.update_from, bind, Exec_update, mk_result. rewrite Hf.
  rewrite filter_bool_none.
  - rewrite map_where_none by exact Hwhere.
    unfold validateResult. cbn. destruct w as [[t f] l]. reflexivity.
  - intros r Hr. rewrite Hwhere by exact Hr. reflexivity.
Qed.

Lemma ConfirmTransfer_unfold tx w :
  ConfirmTransfer tx w
  = update_from tx TransferNew (confirmed_row tx)
      (add_log (Log "mark transfer %s as confirmed" [FStr (HashHex (id tx))]) w).
Proof. reflexivity. Qed.

Lemma SettleTransfer_unfold tx w :
  SettleTransfer tx w
  = update_from tx SubmissionConfirmed settled_row
      (add_log (Log "mark transfer %s as settled" [FStr (HashHex (id tx))]) w).
Proof. reflexivity. Qed.

Lemma settled_row_changes r : r_status r = SubmissionConfirmed -> settled_row r <> r.
Proof.
  intros Hs Heq. apply (f_equal r_status) in Heq. rewrite Hs in Heq. discriminate.
Qed.

(** X1: on a store without fault whose rows have distinct keys,
    [SettleTransfer] succeeds exactly when the row of the transfer has status
    confirmed; it then sets the status of that row to settled and changes
    nothing else, its id included.  When the row is absent or in any other
    status (new, settled) it returns the row-count error and the table is as
    before. *)
Theorem SettleTransfer_confirmed_to_settled tx w :
  fault (db w) = None ->
  NoDup (map row_key (table (db w))) ->
  ((exists r, r ∈ table (db w) /\ row_key r = key_of tx
              /\ r_status r = SubmissionConfirmed) ->
     fst (SettleTransfer tx w) = Return None
     /\ table (db (snd (SettleTransfer tx w)))
        = map (fun r => if bool_decide (row_key r = key_of tx) then settled_row r else r)
            (table (db w)))
  /\ ((forall r, r ∈ table (db w) -> row_key r = key_of tx
                 -> r_status r <> SubmissionConfirmed) ->
      fst (SettleTransfer tx w) = Return (Some (stale_rows 0))
      /\ db (snd (SettleTransfer tx w)) = db w).
Proof.
  intros Hf Hnd. rewrite SettleTransfer_unfold. split.
  - intros Hhit. rewrite update_from_hit; auto using settled_row_changes.
  - intros Hmiss. rewrite update_from_miss; auto.
Qed.

Lemma hit_or_miss tx from (t : list Row) :
  (exists r, r ∈ t /\ row_key r = key_of tx /\ r_status r = from)
  \/ (forall r, r ∈ t -> row_key r = key_of tx -> r_status r <> from).
Proof.
  induction t as [|a t [IH | IH]].
  - right. intros r Hr. inversion Hr.
  - left. destruct IH as (r & Hr & H). exists r. split; [right; exact Hr | exact H].
  - destruct (decide (row_key a = key_of tx /\ r_status a = from)) as [[Hk Hs] | Hno].
    + left. exists a. split; [left | auto].
    + right. intros r Hr Hk Hs. apply elem_of_cons in Hr as [-> | Hr].
      * apply Hno. auto.
      * exact (IH r Hr Hk Hs).
Qed.

Lemma rewrite_key_free tx set (t : list Row) :
  (forall r, r ∈ t -> row_key r <> key_of tx) -> rewrite_key tx set t = t.
Proof.
  induction t as [|a t IH]; intros H; [reflexivity |].
  cbn. rewrite bool_decide_eq_false_2 by (apply H; left).
  f_equal. apply IH. intros r Hr. apply H. right. exact Hr.
Qed.

Lemma rewrite_key_keys tx set (t : list Row) :
  (forall r, row_key (set r) = row_key r) ->
  map row_key (rewrite_key tx set t) = map row_key t.
Proof.
  intros Hset. induction t as [|a t IH]; [reflexivity |].
  cbn. destruct (bool_decide (row_key a = key_of tx)); rewrite ?Hset; f_equal; exact IH.
Qed.

(** The table that a conditional update leaves, whatever the fault: the old
    one, or the old one with the rows it selects rewritten. *)
Lemma update_from_table tx from set w :
  table (db (snd (update_from tx from set w))) = table (db w)
  \/ table (db (snd (update_from tx from set w)))
     = map (fun r => if where_key_status tx from r then set r else r) (table (db w)).
Proof.
  unfold witness.update_from, bind, Exec_update, mk_result, validateResult.
  destruct (fault (db w)) as [[e|e|e|? e]|]; cbn; auto;
    match goal with |- context [negb (bool_decide (?a = 1))] =>
      destruct (negb (bool_decide (a = 1))) end; cbn; auto.
Qed.

Lemma update_from_fault tx from set w :
  fault (db (snd (update_from tx from set w))) = fault (db w).
Proof.
  unfold witness.update_from, bind, Exec_update, mk_result, validateResult.
  destruct (fault (db w)) as [[e|e|e|? e]|] eqn:Hf; cbn; rewrite ?Hf; auto;
    match goal with |- context [negb (bool_decide (?a = 1))] =>
      destruct (negb (bool_decide (a = 1))) end; cbn; rewrite ?Hf; auto.
Qed.

Lemma update_from_rows tx from set w :
  (forall r, witness.same_payload r (set r)) ->
  Forall2 (fun r r' => witness.same_payload r r'
                       /\ (row_key r <> key_of tx -> r' = r)
                       /\ (r_status r <> from -> r' = r)
                       /\ (r' = r \/ r' = set r))
    (table (db w)) (table (db (snd (update_from tx from set w)))).
Proof.
  intros Hset.
  assert (Hrefl : forall r, witness.same_payload r r) by (intros r; repeat split).
  destruct (update_from_table tx from set w) as [-> | ->].
  - apply Forall2_same_length_lookup_2; [reflexivity |].
    intros i r r' H1 H2. rewrite H1 in H2. injection H2 as <-. auto.
  - induction (table (db w)) as [|a t IH]; [constructor |].
    cbn [map]. constructor; [| exact IH].
    destruct (where_key_status tx from a) eqn:Ew.
    + apply andb_true_iff in Ew as [Ek Es].
      apply bool_decide_eq_true in Ek. apply bool_decide_eq_true in Es.
      split; [apply Hset |]. split; [intros H; contradiction |].
      split; [intros H; contradiction | right; reflexivity].
    + auto.
Qed.

Lemma confirmed_row_payload tx r : witness.same_payload r (confirmed_row tx r).
Proof. repeat split. Qed.

Lemma settled_row_payload r : witness.same_payload r (settled_row r).
Proof. repeat split. Qed.

(** X2: on a store without fault whose rows have distinct keys, adding a
    transfer under a free key, confirming it and settling it all succeed, in
    that order, and leave the old rows as they were, followed by one row for
    the transfer, in status settled and with the id written by the
    confirmation. *)
Theorem transfer_lifecycle tx w :
  fault (db w) = None ->
  NoDup (map row_key (table (db w))) ->
  (forall r, r ∈ table (db w) -> row_key r <> key_of tx) ->
  admissible tx ->
  exists w1 w2 w3,
    AddTransfer tx w = (Return None, w1)
    /\ ConfirmTransfer tx w1 = (Return None, w2)
    /\ SettleTransfer tx w2 = (Return None, w3)
    /\ table (db w3) = table (db w) ++ [settled_row (confirmed_row tx (row_of tx))]
    /\ r_status (settled_row (confirmed_row tx (row_of tx))) = TransferSettled
    /\ r_id (settled_row (confirmed_row tx (row_of tx))) = Some (HashHex (id tx)).
Proof.
  intros Hf Hnd Hfree Hadm.
  assert (Hnd1 : forall x, row_key x = key_of tx ->
                 NoDup (map row_key (table (db w) ++ [x]))).
  { intros x Hx. rewrite map_app. apply NoDup_app. split; [exact Hnd |]. split.
    - intros k Hk Hk'. apply list_elem_of_singleton in Hk'. subst k.
      apply list_elem_of_fmap in Hk as (r & Hr & Hin). apply (Hfree r Hin).
      congruence.
    - apply NoDup_singleton. }
  assert (Hrw : forall set x, row_key x = key_of tx ->
                rewrite_key tx set (table (db w) ++ [x]) = table (db w) ++ [set x]).
  { intros set x Hx. unfold witness.rewrite_key. rewrite map_app.
    fold (rewrite_key tx set (table (db w))). rewrite rewrite_key_free by exact Hfree.
    cbn. rewrite bool_decide_eq_true_2 by exact Hx. reflexivity. }
  do 3 eexists. split; [apply AddTransfer_fresh; assumption |].
  split.
  { rewrite ConfirmTransfer_unfold. apply update_from_hit.
    - exact Hf.
    - cbn. apply Hnd1. reflexivity.
    - intros r. apply confirmed_row_changes.
    - exists (row_of tx). cbn. split; [apply elem_of_app; right; left | auto]. }
  cbn [db table set_table add_log]. rewrite Hrw by reflexivity.
  split.
  { rewrite SettleTransfer_unfold. apply update_from_hit.
    - exact Hf.
    - cbn. apply Hnd1. reflexivity.
    - apply settled_row_changes.
    - exists (confirmed_row tx (row_of tx)). cbn.
      split; [apply elem_of_app; right; left | auto]. }
  cbn [db table set_table add_log]. rewrite Hrw by reflexivity.
  repeat split.
Qed.

Lemma rewrite_key_leaves_none tx from to set (t : list Row) :
  from <> to ->
  (forall r, row_key (set r) = row_key r) ->
  (forall r, r_status (set r) = to) ->
  forall r', r' ∈ rewrite_key tx set t -> row_key r' = key_of tx -> r_status r' <> from.
Proof.
  intros Hne Hkey Hto r' Hr' Hk.
  apply list_elem_of_fmap in Hr' as (r & -> & Hr).
  destruct (bool_decide (row_key r = key_of tx)) eqn:E.
  - rewrite Hto. congruence.
  - apply bool_decide_eq_false in E. contradiction.
Qed.

Lemma update_from_twice tx from to set w l1 l2 :
  fault (db w) = None ->
  NoDup (map row_key (table (db w))) ->
  from <> to ->
  (forall r, row_key (set r) = row_key r) ->
  (forall r, r_status (set r) = to) ->
  fst (update_from tx from set (add_log l1 w)) = Return None ->
  fst (update_from tx from set (add_log l2 (snd (update_from tx from set (add_log l1 w)))))
  = Return (Some (stale_rows 0))
  /\ db (snd (update_from tx from set
               (add_log l2 (snd (update_from tx from set (add_log l1 w))))))
     = db (snd (update_from tx from set (add_log l1 w))).
Proof.
  intros Hf Hnd Hne Hkey Hto Hok.
  assert (Hchg : forall r, r_status r = from -> set r <> r).
  { intros r Hs Heq. apply (f_equal r_status) in Heq. rewrite Hto, Hs in Heq. congruence. }
  destruct (hit_or_miss tx from (table (db (add_log l1 w)))) as [Hhit | Hmiss].
  - rewrite (update_from_hit tx from set (add_log l1 w)) by assumption.
    cbn [snd]. rewrite update_from_miss; [split; reflexivity | exact Hf |].
    cbn [db table set_table add_log].
    apply (rewrite_key_leaves_none tx from to); assumption.
  - rewrite update_from_miss in Hok by assumption. discriminate.
Qed.

(** X3: no transfer is confirmed twice or settled twice.  On a store without
    fault whose rows have distinct keys, right after a [ConfirmTransfer] that
    succeeded a second [ConfirmTransfer] of the same transfer returns the
    row-count error and changes no row; the same holds of [SettleTransfer]. *)
Theorem mutators_succeed_once tx w :
  fault (db w) = None ->
  NoDup (map row_key (table (db w))) ->
  (fst (ConfirmTransfer tx w) = Return None ->
     fst (ConfirmTransfer tx (snd (ConfirmTransfer tx w))) = Return (Some (stale_rows 0))
     /\ db (snd (ConfirmTransfer tx (snd (ConfirmTransfer tx w))))
        = db (snd (ConfirmTransfer tx w)))
  /\ (fst (SettleTransfer tx w) = Return None ->
      fst (SettleTransfer tx (snd (SettleTransfer tx w))) = Return (Some (stale_rows 0))
      /\ db (snd (SettleTransfer tx (snd (SettleTransfer tx w))))
         = db (snd (SettleTransfer tx w))).
Proof.
  intros Hf Hnd. split; intros Hok.
  - rewrite (ConfirmTransfer_unfold tx (snd _)), !(ConfirmTransfer_unfold tx w) in *.
    apply (update_from_twice tx TransferNew SubmissionConfirmed); auto; discriminate.
  - rewrite (SettleTransfer_unfold tx (snd _)), !(SettleTransfer_unfold tx w) in *.
    apply (update_from_twice tx SubmissionConfirmed TransferSettled); auto; discriminate.
Qed.

Lemma AddTransfer_table tx w :
  table (db (snd (AddTransfer tx w))) = table (db w)
  \/ (table (db (snd (AddTransfer tx w))) = table (db w) ++ [row_of tx]
      /\ (forall r, r ∈ table (db w) -> row_key r <> key_of tx)
      /\ 0 < amount tx).
Proof.
  unfold witness.AddTransfer, bind, validateID.
  destruct (bool_decide (index tx = MaxInt64 - 1)); [left; reflexivity |].
  cbn [ret]. destruct (bool_decide (Z.sgn (amount tx) = 1)) eqn:Hs; [| left; reflexivity].
  apply bool_decide_eq_true in Hs. apply Z.sgn_pos_iff in Hs.
  cbn [negb]. unfold Exec_insert_ignore, mk_result. rewrite row_key_row_of.
  destruct (existsb (has_key (key_of tx)) (table (db w))) eqn:Hkey.
  - left. destruct (fault (db w)) as [[e|e|e|? e]|]; reflexivity.
  - pose proof (proj1 (existsb_has_key_false _ _) Hkey) as Hfree.
    destruct (fault (db w)) as [[e|e|e|? e]|]; cbn; auto.
Qed.

(** X4: the primary key is an invariant of the recorder: whatever the
    transfer and whatever the fault of the store, after [AddTransfer],
    [ConfirmTransfer] and [SettleTransfer] the rows of the table still have
    distinct keys; the two updates leave the list of keys as it was, and
    [AddTransfer] adds at most one row, at the end. *)
Theorem keys_unique_kept tx w :
  keys_unique w ->
  (keys_unique (snd (AddTransfer tx w))
   /\ (table (db (snd (AddTransfer tx w))) = table (db w)
       \/ table (db (snd (AddTransfer tx w))) = table (db w) ++ [row_of tx]))
  /\ (keys_unique (snd (ConfirmTransfer tx w))
      /\ map row_key (table (db (snd (ConfirmTransfer tx w)))) = map row_key (table (db w)))
  /\ (keys_unique (snd (SettleTransfer tx w))
      /\ map row_key (table (db (snd (SettleTransfer tx w)))) = map row_key (table (db w))).
Proof.
  unfold keys_unique. intros Hnd.
  assert (Hupd : forall from set l,
            (forall r, row_key (set r) = row_key r) ->
            map row_key (table (db (snd (update_from tx from set (add_log l w)))))
            = map row_key (table (db w))).
  { intros from set l Hset.
    destruct (update_from_table tx from set (add_log l w)) as [-> | ->]; [reflexivity |].
    cbn [db table add_log]. rewrite map_map. apply map_ext.
    intros a. destruct (where_key_status tx from a); [apply Hset | reflexivity]. }
  split; [| split].
  - destruct (AddTransfer_table tx w) as [-> | (-> & Hfree & _)]; [auto |].
    split; [| auto]. rewrite map_app. apply NoDup_app. split; [exact Hnd |]. split.
    + intros k Hk Hk'. apply list_elem_of_singleton in Hk'. subst k.
      apply list_elem_of_fmap in Hk as (r & Hr & Hin). apply (Hfree r Hin).
      rewrite <- Hr. reflexivity.
    + apply NoDup_singleton.
  - rewrite ConfirmTransfer_unfold, Hupd by reflexivity. auto.
  - rewrite SettleTransfer_unfold, Hupd by reflexivity. auto.
Qed.

(** X5: the two updates write the status (and [ConfirmTransfer] the id) of
    the row of the transfer and nothing else: whatever the fault, row by row
    the key, sender, recipient, amount, block height and transaction hash
    are as before, a row under another key or in another status than the
    one the update starts from is untouched, and [SettleTransfer] keeps the
    id. *)
Theorem updates_write_status_only tx w :
  Forall2 (fun r r' => same_payload r r'
                       /\ (row_key r <> key_of tx -> r' = r)
                       /\ (r_status r <> TransferNew -> r' = r)
                       /\ (r' = r \/ r' = confirmed_row tx r))
    (table (db w)) (table (db (snd (ConfirmTransfer tx w))))
  /\ Forall2 (fun r r' => same_payload r r'
                          /\ r_id r' = r_id r
                          /\ (row_key r <> key_of tx -> r' = r)
                          /\ (r_status r <> SubmissionConfirmed -> r' = r)
                          /\ (r' = r \/ r' = settled_row r))
       (table (db w)) (table (db (snd (SettleTransfer tx w)))).
Proof.
  split.
  - rewrite ConfirmTransfer_unfold.
    exact (update_from_rows tx TransferNew (confirmed_row tx) (add_log _ w)
             (confirmed_row_payload tx)).
  - rewrite SettleTransfer_unfold.
    eapply Forall2_impl;
      [exact (update_from_rows tx SubmissionConfirmed settled_row (add_log _ w)
                settled_row_payload) |].
    cbn beta. intros r r' (Hp & Hk & Hs & Hor).
    split; [exact Hp |]. split; [destruct Hor as [-> | ->]; reflexivity |].
    split; [exact Hk |]. split; [exact Hs | exact Hor].
Qed.

(** X6: a statement that the database refuses is reported as it is and
    writes nothing: with an Exec error pending, [AddTransfer] (past its two
    guards), [ConfirmTransfer] and [SettleTransfer] each return that very
    error and leave the table as it was. *)
Theorem exec_error_is_returned tx w e :
  fault (db w) = Some (ExecFault e) ->
  (admissible tx -> AddTransfer tx w = (Return (Some e), w))
  /\ (fst (ConfirmTransfer tx w) = Return (Some e)
      /\ db (snd (ConfirmTransfer tx w)) = db w)
  /\ (fst (SettleTransfer tx w) = Return (Some e)
      /\ db (snd (SettleTransfer tx w)) = db w).
Proof.
  intros Hf. split; [| split].
  - intros [Hid Ham]. unfold witness.AddTransfer, bind.
    rewrite validateID_pass by exact Hid. rewrite sgn_guard_pass by exact Ham.
    unfold Exec_insert_ignore. rewrite Hf. reflexivity.
  - unfold witness.ConfirmTransfer, bind, log_Printf, Exec_update. cbn [db fault].
    rewrite Hf. split; reflexivity.
  - unfold witness.SettleTransfer, bind, log_Printf, Exec_update. cbn [db fault].
    rewrite Hf. split; reflexivity.
Qed.

Lemma sql_max_snoc (l : list Z) (x : Z) :
  sql_max (l ++ [x]) = Some match sql_max l with Some m => Z.max m x | None => x end.
Proof.
  destruct l as [|a l]; [reflexivity |]. cbn. rewrite fold_left_app. reflexivity.
Qed.

Lemma TipHeight_value w :
  fault (db w) = None ->
  (forall r, r ∈ table (db w) -> 0 <= r_blockHeight r < 2 ^ 64) ->
  fst (TipHeight w)
  = Return (match sql_max (map r_blockHeight (table (db w))) with
            | Some m => m
            | None => 0
            end, None).
Proof.
  intros Hf Hrange. unfold TipHeight, bind, QueryRow_max_blockHeight. rewrite Hf.
  destruct (sql_max (map r_blockHeight (table (db w)))) as [m|] eqn:Hmax; [| reflexivity].
  cbn. apply sql_max_spec in Hmax as [Hin _].
  apply list_elem_of_fmap in Hin as (r & -> & Hr).
  unfold uint64. rewrite Z.mod_small by (apply Hrange, Hr). reflexivity.
Qed.

(** X7: the tip height follows the insertions.  On a store without fault
    whose block heights are not negative and fit the [bigint] column, adding
    a transfer under a
    free key makes the tip height the larger of the old tip height and the
    block height of the transfer; adding one under a key that is taken
    leaves it as it was, however large the block height of the duplicate. *)
Theorem TipHeight_after_AddTransfer tx w h :
  fault (db w) = None ->
  admissible tx ->
  (forall r, r ∈ table (db w) -> 0 <= r_blockHeight r < 2 ^ 63) ->
  0 <= blockHeight tx < 2 ^ 63 ->
  fst (TipHeight w) = Return (h, None) ->
  ((forall r, r ∈ table (db w) -> row_key r <> key_of tx) ->
     fst (TipHeight (snd (AddTransfer tx w))) = Return (Z.max h (blockHeight tx), None))
  /\ ((exists r, r ∈ table (db w) /\ row_key r = key_of tx) ->
      fst (TipHeight (snd (AddTransfer tx w))) = Return (h, None)).
Proof.
  intros Hf Hadm Hrange63 Hh63 Htip.
  assert (Hrange : forall r, r ∈ table (db w) -> 0 <= r_blockHeight r < 2 ^ 64).
  { intros r Hr. specialize (Hrange63 r Hr). lia. }
  assert (Hh : 0 <= blockHeight tx < 2 ^ 64) by lia.
  rewrite TipHeight_value in Htip by assumption. injection Htip as Htip.
  split.
  - intros Hfree. rewrite AddTransfer_fresh by assumption.
    cbn [snd]. rewrite TipHeight_value.
    + cbn [db table set_table]. rewrite map_app. cbn [map].
      rewrite sql_max_snoc. cbn [r_blockHeight witness.row_of].
      destruct (sql_max (map r_blockHeight (table (db w)))) as [m|] eqn:Hmax.
      * subst h. reflexivity.
      * subst h. rewrite Z.max_r by lia. reflexivity.
    + exact Hf.
    + cbn [db table set_table]. intros r Hr. apply elem_of_app in Hr as [Hr | Hr].
      * apply Hrange, Hr.
      * apply list_elem_of_singleton in Hr. subst r. exact Hh.
  - intros Htaken. rewrite AddTransfer_duplicate by assumption.
    cbn [snd]. rewrite TipHeight_value by assumption. subst h. reflexivity.
Qed.

(** The decimal text of a number is read back as the number. *)
Lemma digit_of_pretty_char (d : N) :
  (d < 10)%N -> digit_of (pretty_N_char d) = Some (Z.of_N d).
Proof.
  intros Hd.
  assert (d = 0 \/ d = 1 \/ d = 2 \/ d = 3 \/ d = 4 \/ d = 5 \/ d = 6 \/ d = 7
          \/ d = 8 \/ d = 9)%N as Hcases by lia.
  repeat (destruct Hcases as [-> | Hcases]; [reflexivity |]). subst d. reflexivity.
Qed.

Lemma scan_digits_pretty_go (x : N) (s : string) :
  scan_digits (pretty_N_go x s) 0 = scan_digits s (Z.of_N x).
Proof.
  revert s. induction (N.lt_wf_0 x) as [x _ IH]. intros s.
  destruct (decide (x = 0)%N) as [-> | Hx]; [reflexivity |].
  rewrite pretty_N_go_step by lia.
  rewrite IH by (apply N.div_lt; lia).
  cbn [scan_digits]. rewrite digit_of_pretty_char by (apply N.mod_lt; lia).
  f_equal. rewrite (N.div_mod x 10) at 3 by lia. lia.
Qed.

Lemma big_SetString_digits (s : string) (v : Z) :
  s <> EmptyString -> scan_digits s 0 = Some v -> big_SetString s = Some v.
Proof.
  destruct s as [|c s']; [contradiction |]. intros _ Hscan.
  unfold big_SetString.
  destruct (bool_decide (c = "-"%char)) eqn:Hm.
  { apply bool_decide_eq_true in Hm. subst c. discriminate. }
  destruct (bool_decide (c = "+"%char)) eqn:Hp.
  { apply bool_decide_eq_true in Hp. subst c. discriminate. }
  exact Hscan.
Qed.

Lemma pretty_positive_digits (p : positive) :
  pretty_N_go (N.pos p) "" <> EmptyString
  /\ scan_digits (pretty_N_go (N.pos p) "") 0 = Some (Z.pos p).
Proof.
  pose proof (scan_digits_pretty_go (N.pos p) "") as H. cbn [scan_digits] in H.
  split; [| exact H]. intros Hempty. rewrite Hempty in H. discriminate.
Qed.

Lemma big_SetString_String (z : Z) : big_SetString (big_String z) = Some z.
Proof.
  unfold big_String, pretty, pretty_Z.
  destruct z as [|p|p]; [reflexivity | |].
  - unfold pretty, pretty_positive, pretty, pretty_N.
    rewrite decide_False by discriminate.
    destruct (pretty_positive_digits p) as [Hne Hscan].
    apply big_SetString_digits; assumption.
  - unfold pretty, pretty_positive, pretty, pretty_N.
    rewrite decide_False by discriminate.
    destruct (pretty_positive_digits p) as [Hne Hscan].
    destruct (pretty_N_go (N.pos p) "") as [|c s'] eqn:E; [contradiction |].
    change (Z.opp <$> scan_digits (String c s') 0 = Some (Z.neg p)).
    rewrite Hscan. reflexivity.
Qed.

Lemma scan_rows_acc (rows : list Row) (rec : list Fetched) :
  scan_rows rows rec
  = match scan_rows rows [] with
    | inl l => inl (rec ++ l)
    | inr e => inr e
    end.
Proof.
  revert rec. induction rows as [|r rows IH]; intros rec.
  - cbn. rewrite app_nil_r. reflexivity.
  - cbn [witness.scan_rows]. destruct (scan_row r) as [[f|]|e]; [| apply IH | reflexivity].
    rewrite IH, (IH ([] ++ [f])).
    destruct (scan_rows rows []); [| reflexivity]. rewrite <- app_assoc. reflexivity.
Qed.

Lemma scan_rows_app (rows1 rows2 : list Row) :
  scan_rows (rows1 ++ rows2) []
  = match scan_rows rows1 [] with
    | inl l => scan_rows rows2 l
    | inr e => inr e
    end.
Proof.
  assert (H : forall rec, scan_rows (rows1 ++ rows2) rec
                          = match scan_rows rows1 rec with
                            | inl l => scan_rows rows2 l
                            | inr e => inr e
                            end).
  { induction rows1 as [|r rows1 IH]; intros rec; [reflexivity |].
    cbn [app witness.scan_rows]. destruct (scan_row r) as [[f|]|e]; auto. }
  apply H.
Qed.

Lemma scan_row_readable (r : Row) :
  (exists o, scan_row r = inl o) <-> readable r.
Proof.
  unfold witness.scan_row, readable, Scan_uint64. split.
  - intros [o Ho].
    destruct ((r_tidx r <? 0) || (2 ^ 64 <=? r_tidx r)) eqn:Hidx; [discriminate |].
    apply orb_false_iff in Hidx as [H1 H2].
    apply Z.ltb_ge in H1. apply Z.leb_gt in H2.
    destruct (big_SetString (r_amount r)) as [a|]; [| discriminate].
    destruct (bool_decide (Z.sgn a = 1)) eqn:Hs; [| discriminate].
    apply bool_decide_eq_true, Z.sgn_pos_iff in Hs.
    split; [lia | eauto].
  - intros [Hidx (a & Ha & Hpos)].
    rewrite (proj2 (orb_false_iff _ _)) by (split; [apply Z.ltb_ge | apply Z.leb_gt]; lia).
    rewrite Ha, sgn_guard_pass by exact Hpos.
    destruct (tokenPairs !! HexToAddress (r_token r)); eauto.
Qed.

Lemma scan_row_fetched (r : Row) (f : Fetched) :
  scan_row r = inl (Some f) ->
  f_status f = r_status r
  /\ tokenPairs !! token (f_transfer f) = Some (f_coToken f)
  /\ 0 < amount (f_transfer f)
  /\ 0 <= index (f_transfer f) < 2 ^ 64.
Proof.
  unfold witness.scan_row, Scan_uint64.
  destruct ((r_tidx r <? 0) || (2 ^ 64 <=? r_tidx r)) eqn:Hidx; [discriminate |].
  apply orb_false_iff in Hidx as [H1 H2].
  apply Z.ltb_ge in H1. apply Z.leb_gt in H2.
  destruct (big_SetString (r_amount r)) as [a|]; [| discriminate].
  destruct (bool_decide (Z.sgn a = 1)) eqn:Hs; [| discriminate].
  apply bool_decide_eq_true, Z.sgn_pos_iff in Hs. cbn [negb].
  destruct (tokenPairs !! HexToAddress (r_token r)) as [to|] eqn:Hto; [| discriminate].
  intros [= <-]. cbn. auto.
Qed.

Lemma scan_rows_fetched (rows : list Row) (l : list Fetched) (f : Fetched) :
  scan_rows rows [] = inl l -> f ∈ l ->
  exists r, r ∈ rows /\ scan_row r = inl (Some f).
Proof.
  revert l. induction rows as [|r rows IH]; intros l.
  - cbn. intros [= <-] Hf. inversion Hf.
  - cbn [witness.scan_rows]. destruct (scan_row r) as [[f'|]|e] eqn:Hr; [| | discriminate].
    + rewrite scan_rows_acc. destruct (scan_rows rows []) as [l'|] eqn:Hrest; [| discriminate].
      intros [= <-] Hf. cbn in Hf. apply elem_of_cons in Hf as [-> | Hf].
      * exists r. split; [left | exact Hr].
      * destruct (IH l' eq_refl Hf) as (r' & Hin & Hs). exists r'. split; [right |]; auto.
    + intros Hl Hf. destruct (IH l Hl Hf) as (r' & Hin & Hs).
      exists r'. split; [right |]; auto.
Qed.

Lemma scan_rows_readable (rows : list Row) :
  (exists l, scan_rows rows [] = inl l) <-> (forall r, r ∈ rows -> readable r).
Proof.
  induction rows as [|r rows IH].
  - split; [intros _ r Hr; inversion Hr | intros _; exists []; reflexivity].
  - cbn [witness.scan_rows]. split.
    + intros [l Hl] r' Hr'.
      destruct (scan_row r) as [o|e] eqn:Hr; [| discriminate].
      assert (Hrest : exists l', scan_rows rows [] = inl l').
      { destruct o as [f|]; [| eauto]. rewrite scan_rows_acc in Hl.
        destruct (scan_rows rows []); [eauto | discriminate]. }
      apply elem_of_cons in Hr' as [-> | Hr'].
      * apply scan_row_readable. eauto.
      * apply IH; assumption.
    + intros Hall.
      destruct (proj2 (scan_row_readable r) (Hall r ltac:(left))) as [o Ho].
      destruct (proj2 IH (fun r' Hr' => Hall r' ltac:(right; exact Hr'))) as [l Hl].
      rewrite Ho. destruct o as [f|]; [| eauto].
      rewrite scan_rows_acc, Hl. eauto.
Qed.

(** X8: a queue holds only what it was asked for.  Every transfer that
    [transfers] returns for a status comes from a row of the table in that
    status, its token is a key of the token pairs with the co-token returned
    as its value, and its amount is positive: a transfer whose token is not
    in the pairs is never returned. *)
Theorem transfers_returns_whitelisted status w l f :
  fst (transfers status w) = Return (inl l) ->
  f ∈ l ->
  f_status f = status
  /\ tokenPairs !! token (f_transfer f) = Some (f_coToken f)
  /\ 0 < amount (f_transfer f)
  /\ exists r, r ∈ table (db w) /\ r_status r = status /\ scan_row r = inl (Some f).
Proof.
  unfold witness.transfers, bind, Query_by_status.
  intros Hrun Hf.
  assert (Hscan : exists rows,
             (forall r, r ∈ rows ->
                        r ∈ filter (fun r => r_status r = status) (table (db w)))
             /\ scan_rows rows [] = inl l).
  { destruct (fault (db w)) as [[e|e|e|n e]|]; cbn in Hrun;
      try (eexists; split; [intros r Hr; exact Hr | congruence]).
    exists (take (S n) (filter (fun r => r_status r = status) (table (db w)))).
    split; [| congruence].
    intros r Hr. apply elem_of_take in Hr as (i & Hi & _).
    eapply list_elem_of_lookup_2. exact Hi. }
  destruct Hscan as (rows & Hsub & Hscan).
  destruct (scan_rows_fetched _ _ _ Hscan Hf) as (r & Hr & Hrow).
  apply Hsub, list_elem_of_filter in Hr as [Hs Hr].
  destruct (scan_row_fetched r f Hrow) as (Hst & Hto & Hpos & _).
  split; [congruence |]. split; [exact Hto |]. split; [exact Hpos |].
  exists r. auto.
Qed.

(** X9: a queue is what the cursor delivers.  [transfers] leaves the
    store and the log as they were.  When the query does not fail and its
    cursor does not break, it returns a list exactly when every row in the
    status asked for can be read (a [tidx] that fits a [uint64], an amount
    that is a positive decimal number), and one row that cannot, be its
    token in the pairs or not, makes the call return an error and no
    transfer.  When the cursor breaks after some rows, all of them
    readable, [transfers] returns a list and no error: the error of the
    cursor is dropped, and the list holds transfers of the rows delivered
    only. *)
Theorem transfers_returns_what_the_cursor_delivers status w :
  snd (transfers status w) = w
  /\ ((forall e, fault (db w) <> Some (QueryFault e)) ->
      (forall n e, fault (db w) <> Some (CursorFault n e)) ->
      ((exists l, fst (transfers status w) = Return (inl l))
       <-> (forall r, r ∈ table (db w) -> r_status r = status -> readable r))
      /\ ((exists r, r ∈ table (db w) /\ r_status r = status /\ ~ readable r) ->
          exists e, fst (transfers status w) = Return (inr e)))
  /\ (forall n e,
        fault (db w) = Some (CursorFault n e) ->
        let delivered :=
          take (S n) (filter (fun r => r_status r = status) (table (db w))) in
        (forall r, r ∈ delivered -> readable r) ->
        exists l, fst (transfers status w) = Return (inl l)
                  /\ forall f, f ∈ l ->
                       exists r, r ∈ delivered /\ scan_row r = inl (Some f)).
Proof.
  unfold witness.transfers, bind, Query_by_status. split; [| split].
  - destruct (fault (db w)) as [[e|e|e|n e]|]; reflexivity.
  - intros Hq Hc.
    assert (Hrun : fst (let (o, w') :=
                          match fault (db w) with
                          | Some (QueryFault e) => (Return (inr e), w)
                          | Some (CursorFault delivered e) =>
                              (Return (inl (take (S delivered)
                                              (filter (fun r => r_status r = status)
                                                 (table (db w))))), w)
                          | _ => (Return (inl (filter (fun r => r_status r = status)
                                                 (table (db w)))), w)
                          end in
                        match o with
                        | Return a =>
                            match a with
                            | inl rows => ret (scan_rows rows [])
                            | inr err => ret (inr err)
                            end w'
                        | Panic e => (Panic e, w')
                        end)
                   = Return (scan_rows (filter (fun r => r_status r = status)
                                          (table (db w))) [])).
    { destruct (fault (db w)) as [[e|e|e|n e]|]; try reflexivity.
      - exfalso. apply (Hq e). reflexivity.
      - exfalso. apply (Hc n e). reflexivity. }
    rewrite Hrun. clear Hrun.
    pose proof (scan_rows_readable (filter (fun r => r_status r = status) (table (db w))))
      as Hiff.
    assert (Hall : (forall r, r ∈ filter (fun r => r_status r = status) (table (db w))
                              -> readable r)
                   <-> (forall r, r ∈ table (db w) -> r_status r = status -> readable r)).
    { split.
      - intros H r Hr Hs. apply H, list_elem_of_filter. auto.
      - intros H r Hr. apply list_elem_of_filter in Hr as [Hs Hr]. auto. }
    split.
    + rewrite <- Hall, <- Hiff. split.
      * intros [l Hl]. exists l. congruence.
      * intros [l Hl]. exists l. congruence.
    + intros (r & Hr & Hs & Hbad).
      destruct (scan_rows _ []) as [l|e] eqn:Hscan; [| eauto].
      exfalso. apply Hbad. apply (proj1 Hall); auto. apply Hiff. eauto.
  - intros n e Hf Hread. rewrite Hf. cbv beta iota delta [fst ret].
    destruct (proj2 (scan_rows_readable _) Hread) as [l Hl].
    rewrite Hl. exists l. split; [reflexivity |].
    intros f Hin. exact (scan_rows_fetched _ l f Hl Hin).
Qed.

(** X10: what [AddTransfer] writes, [TransfersToSubmit] reads back.  With
    address codecs that round-trip, on a store without fault whose queue of
    new transfers reads as [l], adding a transfer under a free key (one that
    passes the guards, with an index that the [bigint] column holds) makes the queue read as [l]
    followed by that transfer, with its cashier, token, index, sender,
    recipient and amount as given and the co-token of its token, when its
    token is in the token pairs, and as [l] when it is not. *)
Theorem TransfersToSubmit_after_AddTransfer tx w l :
  (forall a, HexToAddress (Hex a) = a) ->
  fault (db w) = None ->
  (forall r, r ∈ table (db w) -> row_key r <> key_of tx) ->
  admissible tx ->
  0 <= index tx < 2 ^ 63 ->
  fst (TransfersToSubmit w) = Return (inl l) ->
  fst (TransfersToSubmit (snd (AddTransfer tx w)))
  = Return (inl match tokenPairs !! token tx with
                | Some toToken => l ++ [fetched_of tx toToken]
                | None => l
                end).
Proof.
  intros Hrt Hf Hfree Hadm Hidx Hbefore.
  rewrite AddTransfer_fresh by assumption. cbn [snd].
  unfold witness.TransfersToSubmit, witness.transfers, bind, Query_by_status in *.
  cbn [db table fault set_table]. rewrite Hf in *. cbn in Hbefore. cbn.
  injection Hbefore as Hbefore.
  rewrite filter_app, scan_rows_app, Hbefore.
  rewrite filter_cons_True, filter_nil by reflexivity.
  cbn [witness.scan_rows].
  assert (Hrow : scan_row (row_of tx)
                 = inl match tokenPairs !! token tx with
                       | Some toToken => Some (fetched_of tx toToken)
                       | None => None
                       end).
  { unfold witness.scan_row, Scan_uint64. cbn [r_tidx r_amount r_token r_cashier r_sender
                                                 r_recipient r_id r_status witness.row_of].
    rewrite (proj2 (orb_false_iff _ _)) by (split; [apply Z.ltb_ge | apply Z.leb_gt]; lia).
    rewrite big_SetString_String, sgn_guard_pass by apply Hadm.
    rewrite !Hrt. destruct (tokenPairs !! token tx); reflexivity. }
  rewrite Hrow. destruct (tokenPairs !! token tx); reflexivity.
Qed.

(** X11: the recorder keeps its store readable.  If every row of the table
    can be read by the queues, it is still so after [ConfirmTransfer] and
    after [SettleTransfer], whatever the fault, and after [AddTransfer] of a
    transfer whose index the [bigint] column holds; so on a store that only
    these three write, a queue fails on a failing query alone. *)
Theorem store_stays_readable tx w :
  (forall r, r ∈ table (db w) -> readable r) ->
  (0 <= index tx < 2 ^ 63 ->
     forall r, r ∈ table (db (snd (AddTransfer tx w))) -> readable r)
  /\ (forall r, r ∈ table (db (snd (ConfirmTransfer tx w))) -> readable r)
  /\ (forall r, r ∈ table (db (snd (SettleTransfer tx w))) -> readable r).
Proof.
  intros Hall.
  assert (Hupd : forall t', Forall2 (fun r r' => same_payload r r') (table (db w)) t' ->
                            forall r', r' ∈ t' -> readable r').
  { intros t' H2 r' Hr'.
    apply list_elem_of_lookup in Hr' as [i Hi].
    destruct (Forall2_lookup_r _ _ _ _ _ H2 Hi) as (r & Hr & Hp).
    destruct Hp as (Hk & _ & _ & Ha & _).
    destruct (Hall r) as [Hidx Hamt]; [eapply list_elem_of_lookup_2; exact Hr |].
    unfold readable. rewrite Ha.
    assert (r_tidx r' = r_tidx r) as -> by (unfold row_key in Hk; congruence).
    auto. }
  split; [| split].
  - intros Hidx r Hr.
    destruct (AddTransfer_table tx w) as [Heq | (Heq & _ & Hpos)]; rewrite Heq in Hr;
      [apply Hall, Hr |].
    apply elem_of_app in Hr as [Hr | Hr]; [apply Hall, Hr |].
    apply list_elem_of_singleton in Hr. subst r.
    split; [cbn; lia |]. exists (amount tx). split; [| exact Hpos].
    apply big_SetString_String.
  - apply Hupd. rewrite ConfirmTransfer_unfold.
    eapply Forall2_impl;
      [exact (update_from_rows tx TransferNew (confirmed_row tx) (add_log _ w)
                (confirmed_row_payload tx)) |].
    cbn beta. tauto.
  - apply Hupd. rewrite SettleTransfer_unfold.
    eapply Forall2_impl;
      [exact (update_from_rows tx SubmissionConfirmed settled_row (add_log _ w)
                settled_row_payload) |].
    cbn beta. tauto.
Qed.

End RecorderQueues.

(** * More of the driver: errors, frame, construction, the released decoder *)
Section DriverExtras.

Variable Hex : Address -> string.
Variable env : relayer.Env.

Import relayer.

Abbreviation refresh := (relayer.refresh Hex env).
Abbreviation activate := (relayer.activate Hex env).
Abbreviation pages := (relayer.pages env).
Abbreviation getActiveItems := (relayer.getActiveItems env).
Abbreviation cache_of := (relayer.cache_of Hex).
Abbreviation isActiveWitness := (relayer.isActiveWitness Hex).
Abbreviation collect := (relayer.collect Hex env).
Abbreviation send := (relayer.send env).
Abbreviation submit := (relayer.submit Hex env).
Abbreviation Submit := (relayer.Submit Hex env).
Abbreviation active_of := (relayer.active_of Hex).
Abbreviation account_ready := (relayer.account_ready env).
Abbreviation sent_result := (relayer.sent_result env).
Abbreviation Check := (relayer.Check env).

(** The alerts are raised by the second half of [submit] alone. *)
Lemma activate_alerts (ws : list Address) (m : gmap string bool) (w : World) :
  alerts (snd (activate ws m w)) = alerts w.
Proof.
  revert m w. induction ws as [|a ws IH]; intros m w; [reflexivity |].
  cbn [relayer.activate]. destruct (address_FromBytes env a); [| reflexivity].
  unfold bind, log_Printf. rewrite IH. reflexivity.
Qed.

Ltac halts Hrun := cbn in Hrun; injection Hrun as <- <-; reflexivity.

Lemma refresh_alerts (w : World) : alerts (snd (refresh w)) = alerts w.
Proof.
  destruct (relayer.refresh Hex env w) as [o w'] eqn:Hrun. cbn [snd].
  unfold relayer.refresh in Hrun.
  destruct (witnessList_Read env "count" []) as [data|e]; [| halts Hrun].
  destruct (witnessList_Unpack env "count" data) as [[|v rest]|e];
    [halts Hrun | | halts Hrun].
  destruct v as [count| | | | |]; try (halts Hrun).
  unfold bind, lift in Hrun.
  destruct (relayer.pages env count 0 []) as [[fetched|e]|e];
    [| halts Hrun | halts Hrun].
  unfold log_Printf at 1 in Hrun.
  match type of Hrun with context [relayer.activate _ _ fetched ∅ ?w1] =>
    pose proof (activate_alerts fetched ∅ w1) as Hal;
    destruct (relayer.activate Hex env fetched ∅ w1) as [[[m|e]|e] w2] end;
    cbn in Hal, Hrun; injection Hrun as <- <-; exact Hal.
Qed.

Lemma collect_alerts this (ws : list Witness) (sigs : list byte) (n : Z) (w : World) :
  alerts (snd (collect this ws sigs n w)) = alerts w.
Proof.
  revert sigs n w. induction ws as [|x ws IH]; intros sigs n w; [reflexivity |].
  cbn [relayer.collect].
  destruct (relayer.isActiveWitness Hex this (addr x)); cbn [negb]; [apply IH |].
  destruct (address_FromBytes env (addr x)); [| reflexivity].
  unfold bind, log_Printf. rewrite IH. reflexivity.
Qed.

(** The settings of the driver are out of reach of [refresh]. *)
Lemma refresh_settings (w : World) :
  gasPrice (tv (snd (refresh w))) = gasPrice (tv w)
  /\ gasLimit (tv (snd (refresh w))) = gasLimit (tv w)
  /\ relayerAddr (tv (snd (refresh w))) = relayerAddr (tv w)
  /\ validatorContractAddr (tv (snd (refresh w))) = validatorContractAddr (tv w).
Proof.
  destruct (refresh_spec Hex env w) as (_ & Hfail & Hok).
  destruct (fst (relayer.refresh Hex env w)) as [[e|]|e] eqn:Hres.
  - rewrite Hfail by discriminate. auto.
  - destruct (Hok eq_refl) as (data & count & rest & fetched & _ & _ & _ & _ & ->). auto.
  - rewrite Hfail by discriminate. auto.
Qed.

(** What the second half of [submit] does to the alerts and to the list of
    submissions, and the errors it returns. *)
Lemma send_outcomes this t (sigs : list byte) (r : bool) (w : World) :
  tv (snd (send this t sigs r w)) = tv w
  /\ ((sent (snd (send this t sigs r w)) = sent w
       /\ alerts (snd (send this t sigs r w)) = alerts w
       /\ forall res, fst (send this t sigs r w) = Return res ->
                      exists e, res = failed e /\ noncritical e)
      \/ (exists account balance,
            account_ready this account
            /\ big_SetString (Balance account) = Some balance
            /\ let s := submission_of this t sigs (nonce_for r t account) in
               sent (snd (send this t sigs r w)) = sent w ++ [s]
               /\ alerts (snd (send this t sigs r w))
                  = (if balance <? gasPrice this * gasLimit this
                     then alerts w ++ [low_balance_alert this balance]
                     else alerts w)
               /\ fst (send this t sigs r w) = Return (sent_result this s))).
Proof.
  unfold relayer.send, relayerAccountMeta, bind, lift, relayer.account_ready.
  destruct (GetAccount env (io_String (relayerAddr this))) as [[[[acct|]]|]|e] eqn:Hget;
    cbn.
  2-4: split; [reflexivity |]; left;
       split; [reflexivity |]; split; [reflexivity |];
       intros res Hres;
       first [discriminate
             | injection Hres as <-; eexists; split; [reflexivity | exact I]].
  destruct (big_SetString (Balance acct)) as [balance|] eqn:Hbal; cbn.
  - split.
    + destruct (balance <? gasPrice this * gasLimit this); cbn;
        destruct (validator_Execute env _); reflexivity.
    + right. exists acct, balance.
      split; [exists {| accountMeta := Some acct |}, balance; auto |].
      split; [exact Hbal |]. unfold relayer.sent_result.
      destruct (balance <? gasPrice this * gasLimit this); cbn;
        destruct (validator_Execute env _); cbn; auto.
  - split; [reflexivity |]. left.
    split; [reflexivity |]. split; [reflexivity |].
    intros res [= <-]. eexists. split; [reflexivity | exact I].
Qed.

(** Every run of [submit], by the step that ends it. *)
Lemma submit_runs t (ws : list Witness) (r : bool) (w : World) :
  tv (snd (submit t ws r w)) = tv (snd (refresh w))
  /\ ((sent (snd (submit t ws r w)) = sent w
       /\ alerts (snd (submit t ws r w)) = alerts w
       /\ forall res, fst (submit t ws r w) = Return res ->
                      exists e, res = failed e
                                /\ (e = errInsufficientWitnesses \/ noncritical e))
      \/ (exists account balance,
            account_ready (tv w) account
            /\ big_SetString (Balance account) = Some balance
            /\ fst (refresh w) = Return None
            /\ let this := tv (snd (refresh w)) in
               let s := submission_of this t (payload (active_of this ws))
                          (nonce_for r t account) in
               sent (snd (submit t ws r w)) = sent w ++ [s]
               /\ alerts (snd (submit t ws r w))
                  = (if balance <? gasPrice (tv w) * gasLimit (tv w)
                     then alerts w ++ [low_balance_alert (tv w) balance]
                     else alerts w)
               /\ fst (submit t ws r w) = Return (sent_result this s))).
Proof.
  pose proof (refresh_spec Hex env w) as (Hsent & _).
  pose proof (refresh_alerts w) as Hal.
  pose proof (refresh_settings w) as (Hgp & Hgl & Hra & _).
  unfold relayer.submit, bind.
  destruct (relayer.refresh Hex env w) as [[[e|]|e] w1] eqn:Href;
    cbn [fst snd] in *.
  - cbn. split; [reflexivity |]. left. split; [exact Hsent |]. split; [exact Hal |].
    intros res [= <-]. eexists. split; [reflexivity |]. right. exact I.
  - unfold get_tv.
    pose proof (collect_frame Hex env (tv w1) ws [] 0 w1) as [Htv Hs].
    pose proof (collect_alerts (tv w1) ws [] 0 w1) as Ha.
    pose proof (collect_result Hex env (tv w1) ws [] 0 w1) as Hc.
    destruct (relayer.collect Hex env (tv w1) ws [] 0 w1) as [[[[sigs n]|e]|e] w2];
      cbn in Htv, Hs, Ha, Hc.
    + destruct (Hc sigs n eq_refl) as [-> ->]. cbn [app].
      destruct (Z.leb _ _).
      * cbn. split; [exact Htv |]. left.
        split; [congruence |]. split; [congruence |].
        intros res [= <-]. eexists. split; [reflexivity |]. left. reflexivity.
      * destruct (send_outcomes (tv w1) t (payload (active_of (tv w1) ws)) r w2)
          as (Htv' & [(Hs' & Ha' & Hres) | (account & balance & Hacc & Hbal & Hrun)]).
        -- split; [congruence |]. left.
           split; [congruence |]. split; [congruence |].
           intros res Hr. destruct (Hres res Hr) as (e & -> & Hn). eauto.
        -- split; [congruence |]. right. exists account, balance.
           split.
           { unfold relayer.account_ready in *. rewrite <- Hra. exact Hacc. }
           split; [exact Hbal |]. split; [reflexivity |].
           cbn zeta in *. destruct Hrun as (Hs' & Ha' & Hres).
           rewrite Hs', Ha', Hres, Hs, Ha, Hsent, Hal.
           unfold low_balance_alert. rewrite Hgp, Hgl, Hra. auto.
    + cbn. split; [exact Htv |]. left.
      split; [congruence |]. split; [congruence |].
      intros res [= <-]. eexists. split; [reflexivity |]. right. exact I.
    + cbn. split; [exact Htv |]. left.
      split; [congruence |]. split; [congruence |]. intros res Hr. discriminate.
  - cbn. split; [reflexivity |]. left. split; [exact Hsent |]. split; [exact Hal |].
    intros res Hr. discriminate.
Qed.

Lemma sent_grows_not (l : list Submission) (s : Submission) : l ++ [s] <> l.
Proof.
  intros H. apply (f_equal length) in H. rewrite length_app in H. cbn in H. lia.
Qed.

(** X13: the errors of [submit].  Whenever [submit] returns an error it
    returns the zero hash, the zero nonce and no gas price with it, and
    either no contract call was made and the error is
    [errInsufficientWitnesses] or wraps [errNoncritical], or one contract
    call was made and the error is the very error of that call, unwrapped. *)
Theorem submit_error_classes t (ws : list Witness) (r : bool) (w : World) h n g e :
  fst (submit t ws r w) = Return (h, n, g, Some e) ->
  (h = 0%N /\ n = 0 /\ g = None)
  /\ ((sent (snd (submit t ws r w)) = sent w
       /\ (e = errInsufficientWitnesses \/ noncritical e))
      \/ (exists s, sent (snd (submit t ws r w)) = sent w ++ [s]
                    /\ validator_Execute env s = inr e)).
Proof.
  intros Hrun.
  destruct (submit_runs t ws r w)
    as (_ & [(Hs & _ & Hres) | (account & balance & _ & _ & _ & Hsend)]).
  - destruct (Hres _ Hrun) as (e' & Heq & Hclass).
    unfold failed in Heq. injection Heq as -> -> -> ->. auto.
  - cbn zeta in Hsend. destruct Hsend as (Hs & _ & Hres).
    rewrite Hrun in Hres. unfold relayer.sent_result in Hres.
    destruct (validator_Execute env _) as [h'|e'] eqn:Hcall; [discriminate |].
    injection Hres as -> -> -> ->. split; [auto |]. right. eauto.
Qed.

(** X16: [submit] writes the cache and nothing else of the driver.  After
    any run, also one that fails or panics, the driver is as [refresh] left
    it: gas price, gas limit and the two addresses are as before, the cache
    is the refreshed one when the refresh succeeded, and this also when the
    submission is then refused for lack of quorum; when the refresh fails
    the driver is untouched and the error returned wraps [errNoncritical]
    around the error of the refresh. *)
Theorem submit_writes_cache_only t (ws : list Witness) (r : bool) (w : World) :
  (gasPrice (tv (snd (submit t ws r w))) = gasPrice (tv w)
   /\ gasLimit (tv (snd (submit t ws r w))) = gasLimit (tv w)
   /\ relayerAddr (tv (snd (submit t ws r w))) = relayerAddr (tv w)
   /\ validatorContractAddr (tv (snd (submit t ws r w))) = validatorContractAddr (tv w))
  /\ tv (snd (submit t ws r w)) = tv (snd (refresh w))
  /\ (forall e, fst (refresh w) = Return (Some e) ->
        fst (submit t ws r w) = Return (failed (errors_Wrap errNoncritical e))
        /\ tv (snd (submit t ws r w)) = tv w
        /\ sent (snd (submit t ws r w)) = sent w).
Proof.
  destruct (submit_runs t ws r w) as (Htv & _).
  split; [rewrite Htv; apply refresh_settings |]. split; [exact Htv |].
  intros e He.
  destruct (refresh_spec Hex env w) as (Hsent & Hfail & _).
  unfold relayer.submit, bind.
  destruct (relayer.refresh Hex env w) as [o w1]. cbn [fst snd] in *. subst o.
  cbn. split; [reflexivity |]. split; [apply Hfail; discriminate | exact Hsent].
Qed.

(** X18: [Check] reads and never writes.  It leaves the driver, the log and
    the list of submissions as they were; the status it returns is
    [StatusOnChainUnknown] exactly when it returns an error with it; and it
    panics only on an empty decoding of the settle height. *)
Theorem Check_reads_only t (w : World) :
  snd (Check t w) = w
  /\ (forall st err, fst (Check t w) = Return (st, err) ->
        (st = StatusOnChainUnknown <-> err <> None))
  /\ (forall e, fst (Check t w) = Panic e ->
        exists data, validator_Read env "settles" [abi_hash (id t)] = inl data
                     /\ validator_Unpack env "settles" data = inl []).
Proof.
  unfold relayer.Check.
  destruct (validator_Read env "settles" [abi_hash (id t)]) as [data|e0].
  2: { cbn. split; [reflexivity |]. split; [| intros; discriminate].
       intros st err [= <- <-]. split; [discriminate | reflexivity]. }
  destruct (validator_Unpack env "settles" data) as [[|v rest]|e0] eqn:Hunpack.
  - cbn. split; [reflexivity |]. split; [intros; discriminate | eauto].
  - destruct v as [height| | | | |];
      try (cbn; split; [reflexivity |]; split; [| intros; discriminate];
           intros st err [= <- <-]; split; [discriminate | reflexivity]).
    destruct (0 <? height).
    + cbn. split; [reflexivity |]. split; [| intros; discriminate].
      intros st err [= <- <-]. split; [discriminate | intros H; contradiction].
    + destruct (GetReceiptByAction env {| ActionHash := "" |}) as [response err0].
      destruct err0 as [err0|]; [destruct err0 as [| | | |c msg| | |]; [..] |];
        cbn [status_Code]; try destruct c; try destruct response;
        cbn; (split; [reflexivity |]; split; [| intros; discriminate]);
        intros st err [= <- <-];
        (split; [try discriminate; intros; discriminate
                | try reflexivity; intros H; contradiction]).
  - cbn. split; [reflexivity |]. split; [| intros; discriminate].
    intros st err [= <- <-]. split; [discriminate | reflexivity].
Qed.



(** ** The driver behind the released decoder *)

(** With go-ethereum's decoder no page of the witness list passes the type
    assertion of [refresh]: the paging loop returns the addresses only when
    it has no page to read. *)
Lemma getActiveItems_never_decodes (o : Z) (page : list Address) :
  Unpack_of_go_ethereum env -> getActiveItems o <> Return (inl page).
Proof.
  intros Hlib. unfold relayer.getActiveItems.
  destruct (witnessList_Read env "getActiveItems" [abi_uint o; abi_uint8 limit])
    as [data|e]; [| discriminate].
  destruct (witnessList_Unpack env "getActiveItems" data) as [[|v rest]|e] eqn:Hunpack;
    try discriminate.
  destruct v as [z|z|h|a|c items|name]; try discriminate.
  exfalso. exact (Hlib _ _ _ _ _ Hunpack).
Qed.

Lemma pages_released (count offset : Z) (acc fetched : list Address) :
  Unpack_of_go_ethereum env ->
  pages count offset acc = Return (inl fetched) ->
  count <= offset /\ fetched = acc.
Proof.
  intros Hlib. funelim (relayer.pages env count offset acc); intros Hrun.
  - injection Hrun as <-. split; [lia | reflexivity].
  - exfalso. eapply getActiveItems_never_decodes; eassumption.
  - discriminate.
  - discriminate.
Qed.

Lemma refresh_released (w : World) :
  Unpack_of_go_ethereum env ->
  fst (refresh w) = Return None ->
  witnesses (tv (snd (refresh w))) = ∅
  /\ exists data count rest,
       witnessList_Read env "count" [] = inl data
       /\ witnessList_Unpack env "count" data = inl (abi_uint count :: rest)
       /\ count <= 0.
Proof.
  intros Hlib Hok.
  destruct (refresh_spec Hex env w) as (_ & _ & Hspec).
  destruct (Hspec Hok) as (data & count & rest & fetched & Hr & Hu & Hp & _ & Htv).
  destruct (pages_released count 0 [] fetched Hlib Hp) as [Hcount ->].
  rewrite Htv. split; [reflexivity |]. exists data, count, rest. auto.
Qed.

(** A driver with an empty cache holds every witness inactive. *)
Lemma active_of_empty this (ws : list Witness) :
  witnesses this = ∅ -> active_of this ws = [].
Proof.
  intros Hcache. unfold relayer.active_of.
  induction ws as [|x ws IH]; [reflexivity |].
  rewrite filter_cons_False; [exact IH |].
  unfold relayer.isActiveWitness. rewrite Hcache, lookup_empty. discriminate.
Qed.

Lemma collect_converts this (ws : list Witness) (sigs : list byte) (n : Z) (w : World) :
  FromBytes_total env ->
  fst (collect this ws sigs n w)
  = Return (inl (sigs ++ payload (active_of this ws),
                 n + Z.of_nat (length (active_of this ws)))).
Proof.
  intros Hconv. revert sigs n w. induction ws as [|x ws IH]; intros sigs n w.
  - cbn. rewrite app_nil_r. do 3 f_equal. lia.
  - cbn [relayer.collect]. unfold relayer.active_of.
    destruct (relayer.isActiveWitness Hex this (addr x)) eqn:Hx; cbn [negb].
    + rewrite filter_cons_True by exact Hx.
      rewrite IH. unfold relayer.active_of, payload. cbn.
      rewrite <- app_assoc. do 3 f_equal. lia.
    + rewrite filter_cons_False by (rewrite Hx; discriminate).
      destruct (Hconv (addr x)) as [a Ha]. rewrite Ha.
      unfold bind, log_Printf. apply IH.
Qed.

(** X12: behind go-ethereum's decoder the driver never reaches the
    contract.  Whatever the transfer, the witnesses and the chain, [submit]
    makes no contract call, raises no alert and returns no hash; a refresh
    succeeds only on a witness list whose count is not positive, and leaves
    an empty cache; and [submit] then returns [errInsufficientWitnesses],
    whoever signed (every address converting). *)
Theorem submit_never_reaches_the_contract t (ws : list Witness) (r : bool) (w : World) :
  Unpack_of_go_ethereum env ->
  (sent (snd (submit t ws r w)) = sent w
   /\ alerts (snd (submit t ws r w)) = alerts w
   /\ forall h n g, fst (submit t ws r w) <> Return (h, n, g, None))
  /\ (fst (refresh w) = Return None ->
      (exists data count rest,
         witnessList_Read env "count" [] = inl data
         /\ witnessList_Unpack env "count" data = inl (abi_uint count :: rest)
         /\ count <= 0)
      /\ witnesses (tv (snd (submit t ws r w))) = ∅
      /\ (FromBytes_total env ->
          fst (submit t ws r w) = Return (failed errInsufficientWitnesses))).
Proof.
  intros Hlib.
  pose proof (refresh_spec Hex env w) as (Hsent & _).
  pose proof (refresh_alerts w) as Hal.
  pose proof (refresh_released w Hlib) as Hempty.
  unfold relayer.submit, bind.
  destruct (relayer.refresh Hex env w) as [[[e|]|e] w1] eqn:Href; cbn [fst snd] in *.
  - cbn. split; [| intros; discriminate].
    split; [exact Hsent |]. split; [exact Hal | intros; discriminate].
  - destruct (Hempty eq_refl) as (Hcache & Hcount).
    unfold get_tv.
    pose proof (collect_frame Hex env (tv w1) ws [] 0 w1) as [Htv Hs].
    pose proof (collect_alerts (tv w1) ws [] 0 w1) as Ha.
    pose proof (collect_result Hex env (tv w1) ws [] 0 w1) as Hc.
    pose proof (collect_converts (tv w1) ws [] 0 w1) as Hall.
    rewrite (active_of_empty (tv w1) ws Hcache) in Hc, Hall.
    destruct (relayer.collect Hex env (tv w1) ws [] 0 w1) as [[[[sigs n]|e]|e] w2];
      cbn in Htv, Hs, Ha, Hc, Hall.
    + destruct (Hc sigs n eq_refl) as [-> ->]. rewrite Hcache, map_size_empty.
      change ((0 + Z.of_nat 0) * 3 <=? Z.of_nat 0 * 2) with true. cbn.
      split; [| intros _; split; [exact Hcount |]; split; [| reflexivity]].
      * split; [congruence |]. split; [congruence | intros; discriminate].
      * rewrite Htv. exact Hcache.
    + cbn. split; [| intros _; split; [exact Hcount |]; split].
      * split; [congruence |]. split; [congruence | intros; discriminate].
      * rewrite Htv. exact Hcache.
      * intros Hconv. specialize (Hall Hconv). discriminate.
    + cbn. split; [| intros _; split; [exact Hcount |]; split].
      * split; [congruence |]. split; [congruence | intros; discriminate].
      * rewrite Htv. exact Hcache.
      * intros Hconv. specialize (Hall Hconv). discriminate.
  - cbn. split; [| intros; discriminate].
    split; [exact Hsent |]. split; [exact Hal | intros; discriminate].
Qed.

(** What the text of [submit] promises of a contract call, in every
    environment, also one whose decoder would pass the assertion of
    [refresh]: the payload is the signatures of the witnesses held active,
    in the order of the list as it was supplied; the gas price is the one
    the driver had before the call; and on a resubmission the nonce is the
    one recorded in the transfer. *)
Lemma submit_call_carries t (ws : list Witness) (r : bool) (w : World) s :
  sent (snd (submit t ws r w)) = sent w ++ [s] ->
  s_signatures s = payload (active_of (tv (snd (submit t ws r w))) ws)
  /\ s_gasPrice s = gasPrice (tv w)
  /\ (r = true -> s_nonce s = nonce t).
Proof.
  intros Hgrow.
  pose proof (refresh_settings w) as (Hgp & _).
  destruct (submit_runs t ws r w)
    as (Htv & [(Hs & _) | (account & balance & _ & _ & _ & Hsend)]).
  - rewrite Hs in Hgrow. symmetry in Hgrow. exfalso. exact (sent_grows_not _ _ Hgrow).
  - cbn zeta in Hsend. destruct Hsend as (Hs & _).
    rewrite Hs in Hgrow. apply app_inv_head in Hgrow. injection Hgrow as <-.
    rewrite Htv. cbn [s_signatures s_gasPrice s_nonce submission_of].
    split; [reflexivity |]. split; [exact Hgp |]. intros ->. reflexivity.
Qed.

End DriverExtras.

(** * Examples for the properties above *)

Lemma demo_Hex_inj (x y : Address) : demo_Hex x = demo_Hex y -> x = y.
Proof.
  unfold demo_Hex. cbn. intros H. injection H as H. exact (inj pretty _ _ H).
Qed.

Lemma demo_unhex_Hex (a : Address) : demo_unhex (demo_Hex a) = a.
Proof.
  unfold demo_Hex.
  change ("0x" +:+ pretty a) with (String "0" (String "x" (pretty a))).
  unfold demo_unhex.
  assert (pretty a = big_String (Z.of_N a)) as -> by (destruct a; reflexivity).
  rewrite big_SetString_String. apply N2Z.id.
Qed.

Lemma SettleTransfer_confirmed_to_settled_witness :
  fst (witness.SettleTransfer demo_Hex demo_Hex (demo_transfer 9 100 7)
         (world_of [demo_row "confirmed" 7])) = Return None
  /\ witness.table (witness.db (snd (witness.SettleTransfer demo_Hex demo_Hex
                                       (demo_transfer 9 100 7)
                                       (world_of [demo_row "confirmed" 7]))))
     = [witness.settled_row (demo_row "confirmed" 7)].
Proof.
  destruct (SettleTransfer_confirmed_to_settled demo_Hex demo_Hex (demo_transfer 9 100 7)
              (world_of [demo_row "confirmed" 7])) as [Hok _].
  - reflexivity.
  - apply NoDup_singleton.
  - destruct Hok as [Hres Htable].
    + exists (demo_row "confirmed" 7). split; [left | split; reflexivity].
    + split; [exact Hres | rewrite Htable; reflexivity].
Defined.

Lemma transfer_lifecycle_witness :
  exists w1 w2 w3,
    witness.AddTransfer demo_Hex demo_Hex (demo_transfer 9 100 7) empty_world
    = (Return None, w1)
    /\ witness.ConfirmTransfer demo_Hex demo_Hex (demo_transfer 9 100 7) w1
       = (Return None, w2)
    /\ witness.SettleTransfer demo_Hex demo_Hex (demo_transfer 9 100 7) w2
       = (Return None, w3)
    /\ witness.table (witness.db w3)
       = [witness.settled_row
            (witness.confirmed_row demo_Hex (demo_transfer 9 100 7)
               (witness.row_of demo_Hex demo_Hex (demo_transfer 9 100 7)))].
Proof.
  destruct (transfer_lifecycle demo_Hex demo_Hex (demo_transfer 9 100 7) empty_world)
    as (w1 & w2 & w3 & H1 & H2 & H3 & Ht & _).
  - reflexivity.
  - constructor.
  - intros r Hr. inversion Hr.
  - split; [discriminate | reflexivity].
  - exists w1, w2, w3. auto.
Defined.

Lemma mutators_succeed_once_witness :
  fst (witness.ConfirmTransfer demo_Hex demo_Hex (demo_transfer 9 100 7)
         (snd (witness.ConfirmTransfer demo_Hex demo_Hex (demo_transfer 9 100 7)
                 (world_of [demo_row "new" 7]))))
  = Return (Some (witness.stale_rows 0)).
Proof.
  destruct (mutators_succeed_once demo_Hex demo_Hex (demo_transfer 9 100 7)
              (world_of [demo_row "new" 7])) as [Hconfirm _].
  - reflexivity.
  - apply NoDup_singleton.
  - apply Hconfirm. reflexivity.
Defined.

Lemma keys_unique_kept_witness :
  witness.keys_unique (snd (witness.AddTransfer demo_Hex demo_Hex (demo_transfer 9 5 8)
                              (world_of [demo_row "new" 7])))
  /\ witness.keys_unique (snd (witness.ConfirmTransfer demo_Hex demo_Hex
                                 (demo_transfer 9 5 8) (world_of [demo_row "new" 7]))).
Proof.
  destruct (keys_unique_kept demo_Hex demo_Hex (demo_transfer 9 5 8)
              (world_of [demo_row "new" 7])) as ((Hadd & _) & (Hconfirm & _) & _).
  - apply NoDup_singleton.
  - split; [exact Hadd | exact Hconfirm].
Defined.

Lemma exec_error_is_returned_witness :
  witness.AddTransfer demo_Hex demo_Hex (demo_transfer 9 100 7)
    (refusing_world [demo_row "new" 7])
  = (Return (Some lock_timeout), refusing_world [demo_row "new" 7])
  /\ fst (witness.ConfirmTransfer demo_Hex demo_Hex (demo_transfer 9 100 7)
            (refusing_world [demo_row "new" 7])) = Return (Some lock_timeout).
Proof.
  destruct (exec_error_is_returned demo_Hex demo_Hex (demo_transfer 9 100 7)
              (refusing_world [demo_row "new" 7]) lock_timeout)
    as (Hadd & (Hconfirm & _) & _).
  - reflexivity.
  - split; [| exact Hconfirm]. apply Hadd. split; [discriminate | reflexivity].
Defined.

Lemma TipHeight_after_AddTransfer_witness :
  fst (witness.TipHeight (snd (witness.AddTransfer demo_Hex demo_Hex (demo_transfer 10 5 8)
                                 (world_of [demo_row "new" 3]))))
  = Return (8, None)
  /\ fst (witness.TipHeight (snd (witness.AddTransfer demo_Hex demo_Hex
                                    (demo_transfer 9 5 8) (world_of [demo_row "new" 3]))))
     = Return (3, None).
Proof.
  split.
  - destruct (TipHeight_after_AddTransfer demo_Hex demo_Hex (demo_transfer 10 5 8)
                (world_of [demo_row "new" 3]) 3) as [Hfresh _].
    + reflexivity.
    + split; [discriminate | reflexivity].
    + intros r Hr. apply list_elem_of_singleton in Hr. subst r. cbn. lia.
    + cbn. lia.
    + reflexivity.
    + apply Hfresh. intros r Hr. apply list_elem_of_singleton in Hr. subst r.
      intros Hkey. apply (f_equal snd) in Hkey. discriminate Hkey.
  - destruct (TipHeight_after_AddTransfer demo_Hex demo_Hex (demo_transfer 9 5 8)
                (world_of [demo_row "new" 3]) 3) as [_ Htaken].
    + reflexivity.
    + split; [discriminate | reflexivity].
    + intros r Hr. apply list_elem_of_singleton in Hr. subst r. cbn. lia.
    + cbn. lia.
    + reflexivity.
    + apply Htaken. exists (demo_row "new" 3). split; [left | reflexivity].
Defined.

Lemma transfers_returns_whitelisted_witness :
  fst (witness.transfers demo_unhex demo_unhex demo_pairs "new"
         (world_of [demo_row "new" 7]))
  = Return (inl [witness.fetched_of (demo_transfer 9 100 7) 22%N])
  /\ demo_pairs !! witness.token
                     (witness.f_transfer (witness.fetched_of (demo_transfer 9 100 7) 22%N))
     = Some 22%N.
Proof.
  assert (Hrun : fst (witness.transfers demo_unhex demo_unhex demo_pairs "new"
                        (world_of [demo_row "new" 7]))
                 = Return (inl [witness.fetched_of (demo_transfer 9 100 7) 22%N]))
    by (vm_compute; reflexivity).
  split; [exact Hrun |].
  destruct (transfers_returns_whitelisted demo_unhex demo_unhex demo_pairs "new"
              (world_of [demo_row "new" 7])
              [witness.fetched_of (demo_transfer 9 100 7) 22%N]
              (witness.fetched_of (demo_transfer 9 100 7) 22%N) Hrun)
    as (_ & Hpair & _); [left | exact Hpair].
Defined.

Lemma transfers_returns_what_the_cursor_delivers_witness :
  (exists e, fst (witness.transfers demo_unhex demo_unhex demo_pairs "new"
                    (world_of [demo_row "new" 7; bad_amount_row])) = Return (inr e))
  /\ (exists l, fst (witness.transfers demo_unhex demo_unhex demo_pairs "new"
                       (broken_cursor_world [demo_row "new" 7; bad_amount_row]))
                = Return (inl l)).
Proof.
  split.
  - destruct (transfers_returns_what_the_cursor_delivers demo_unhex demo_unhex demo_pairs
                "new" (world_of [demo_row "new" 7; bad_amount_row])) as (_ & Hq & _).
    destruct Hq as [_ Hbad]; [intros e; discriminate | intros n e; discriminate |].
    apply Hbad. exists bad_amount_row.
    split; [right; left |]. split; [reflexivity |].
    intros [_ (a & Ha & _)]. vm_compute in Ha. discriminate Ha.
  - destruct (transfers_returns_what_the_cursor_delivers demo_unhex demo_unhex demo_pairs
                "new" (broken_cursor_world [demo_row "new" 7; bad_amount_row]))
      as (_ & _ & Hcut).
    destruct (Hcut 0%nat invalid_connection eq_refl) as (l & Hl & _).
    + intros r Hr. change (r ∈ [demo_row "new" 7]) in Hr.
      apply list_elem_of_singleton in Hr. subst r.
      split; [cbn; lia |]. exists 100. split; [reflexivity | lia].
    + exists l. exact Hl.
Defined.

Lemma TransfersToSubmit_after_AddTransfer_witness :
  fst (witness.TransfersToSubmit demo_unhex demo_unhex demo_pairs
         (snd (witness.AddTransfer demo_Hex demo_Hex (demo_transfer 9 100 7) empty_world)))
  = Return (inl [witness.fetched_of (demo_transfer 9 100 7) 22%N]).
Proof.
  pose proof (TransfersToSubmit_after_AddTransfer demo_Hex demo_Hex demo_unhex demo_unhex
                demo_pairs (demo_transfer 9 100 7) empty_world []
                demo_unhex_Hex eq_refl) as H.
  rewrite H.
  - reflexivity.
  - intros r Hr. inversion Hr.
  - split; [discriminate | reflexivity].
  - cbn. lia.
  - reflexivity.
Defined.

Lemma store_stays_readable_witness :
  witness.readable (demo_row "new" 7)
  /\ witness.readable (witness.row_of demo_Hex demo_Hex (demo_transfer 10 5 8)).
Proof.
  assert (Htable : witness.table (witness.db (snd (witness.AddTransfer demo_Hex demo_Hex
                                                     (demo_transfer 10 5 8)
                                                     (world_of [demo_row "new" 7]))))
                   = [demo_row "new" 7;
                      witness.row_of demo_Hex demo_Hex (demo_transfer 10 5 8)])
    by reflexivity.
  destruct (store_stays_readable demo_Hex demo_Hex (demo_transfer 10 5 8)
              (world_of [demo_row "new" 7])) as (Hadd & _).
  - intros r Hr. apply list_elem_of_singleton in Hr. subst r.
    split; [cbn; lia |]. exists 100. split; [reflexivity | lia].
  - assert (Hidx : 0 <= witness.index (demo_transfer 10 5 8) < 2 ^ 63) by (cbn; lia).
    split; apply (Hadd Hidx); rewrite Htable; [left | right; left].
Defined.

Lemma submit_error_classes_witness :
  relayer.sent (snd (relayer.submit demo_Hex (pages_down demo_chain) (demo_relay 0 0%N)
                       sorted_sigs false cached_driver))
  = relayer.sent cached_driver
  /\ relayer.noncritical (errors_Wrap errNoncritical (extern_error "connection reset")).
Proof.
  destruct (submit_error_classes demo_Hex (pages_down demo_chain) (demo_relay 0 0%N)
              sorted_sigs false cached_driver 0%N 0 None
              (errors_Wrap errNoncritical (extern_error "connection reset")))
    as (_ & [(Hsent & _) | (s & Hsent & _)]).
  - vm_compute. reflexivity.
  - split; [exact Hsent | exact I].
  - vm_compute in Hsent. discriminate Hsent.
Defined.

Lemma submit_writes_cache_only_witness :
  fst (relayer.submit demo_Hex (pages_down demo_chain) (demo_relay 0 0%N)
         sorted_sigs false cached_driver)
  = Return (relayer.failed (errors_Wrap errNoncritical (extern_error "connection reset")))
  /\ relayer.tv (snd (relayer.submit demo_Hex (pages_down demo_chain) (demo_relay 0 0%N)
                        sorted_sigs false cached_driver))
     = relayer.tv cached_driver.
Proof.
  destruct (submit_writes_cache_only demo_Hex (pages_down demo_chain) (demo_relay 0 0%N)
              sorted_sigs false cached_driver) as (_ & _ & Hfail).
  destruct (Hfail (extern_error "connection reset")) as (Hres & Htv & _).
  - vm_compute. reflexivity.
  - split; [exact Hres | exact Htv].
Defined.

Lemma Check_reads_only_witness :
  snd (relayer.Check (chain_env demo_chain) (demo_relay 0 0%N) demo_driver) = demo_driver
  /\ (relayer.StatusOnChainNeedSpeedUp = relayer.StatusOnChainUnknown
      <-> (None : option error) <> None).
Proof.
  destruct (Check_reads_only (chain_env demo_chain) (demo_relay 0 0%N) demo_driver)
    as (Hsame & Hunknown & _).
  split; [exact Hsame |]. apply Hunknown. reflexivity.
Defined.


(** The chains of the examples are behind the released libraries. *)
Lemma chain_env_released (c : Chain) : relayer.Unpack_of_go_ethereum (chain_env c).
Proof.
  intros method data count items rest H. cbn in H.
  destruct (bool_decide (method = "count")); discriminate H.
Qed.

Lemma chain_env_converts (c : Chain) : relayer.FromBytes_total (chain_env c).
Proof. intros a. eexists. reflexivity. Qed.

Lemma submit_never_reaches_the_contract_witness :
  relayer.sent (snd (relayer.submit demo_Hex (chain_env demo_chain) (demo_relay 0 0%N)
                       sorted_sigs false demo_driver))
  = relayer.sent demo_driver
  /\ fst (relayer.submit demo_Hex (chain_env empty_chain) (demo_relay 0 0%N)
            sorted_sigs false demo_driver)
     = Return (relayer.failed errInsufficientWitnesses).
Proof.
  split.
  - apply (submit_never_reaches_the_contract demo_Hex (chain_env demo_chain)
             (demo_relay 0 0%N) sorted_sigs false demo_driver
             (chain_env_released demo_chain)).
  - destruct (submit_never_reaches_the_contract demo_Hex (chain_env empty_chain)
                (demo_relay 0 0%N) sorted_sigs false demo_driver
                (chain_env_released empty_chain)) as (_ & Hok).
    destruct Hok as (_ & _ & Hres); [vm_compute; reflexivity |].
    apply Hres, chain_env_converts.
Defined.

(** C1: on a chain whose witness list holds three active witnesses, with a
    signature of each of them (3 |S| = 9 > 6 = 2 |W|), [Submit] makes no
    contract call.  The first page of the witness list, once decoded, fails
    the type assertion of [refresh]; [Submit] returns the error of the
    refresh wrapped as non-critical, neither a hash nor
    [errInsufficientWitnesses], and leaves the driver and the list of
    submissions as they were. *)
Theorem Submit_refuses_a_met_quorum :
  map relayer.addr sorted_sigs = c_active demo_chain
  /\ 3 * Z.of_nat (length sorted_sigs) > 2 * Z.of_nat (length (c_active demo_chain))
  /\ relayer.Submit demo_Hex (chain_env demo_chain) (demo_relay 0 0%N) sorted_sigs
       demo_driver
     = (Return (relayer.failed
                  (errors_Wrap errNoncritical
                     (errors_Errorf "invalid type %s" [FStr "*big.Int"]))),
        demo_driver)
  /\ relayer.sent demo_driver = [].
Proof. repeat split; vm_compute; reflexivity. Qed.

